(** * bxcommon-go: the SDN client (package [sdnsdk])

    A shallow embedding of the relay-specification parser, the relay
    controller, the cache-backed fetcher and the load-time fix-ups of
    [sdnsdk/sdk.go] and of the cache-file helpers, with the properties the
    specification states about them.

    Conventions.
    - Go [string] and [[]byte] values are byte sequences: [string] here.
    - Go [int], [int64] are [Z]; [uint64] is a [Z] in [0, 2^64) with the
      conversion written out ([uint64]).
    - Go [float64] latencies (milliseconds) are binary64 floats, with
      the rounding and the NaN of IEEE 754: Rocq's primitive floats.
    - Go maps are [gmap]s; [range] over a map walks [map_to_list], an
      arbitrary but fixed enumeration.  Statements about emitted
      instructions are about membership, never about that order.
    - A send on the instruction channel appends to the list of
      instructions sent; a task started with [go] is returned as data and
      run after the call that started it.
    - A Go function returning [(T, error)] returns [Result T].
    - The operating system (DNS, HTTP, files) is an explicit argument. *)

From Stdlib Require Import ZArith QArith Floats Ascii String List Lia.
From stdpp Require Import base option list gmap strings sorting.
Import ListNotations.

Local Open Scope string_scope.
Local Open Scope Z_scope.

(** ** Errors *)

(** The error values the package builds, one constructor per site. *)
Inductive Error : Type :=
| ErrSDNUnavailable                         (* "SDN service unavailable" *)
| ErrNoRelays                               (* "no relays were acquired from SDN" *)
| ErrNoRelaysArgument                       (* "no --relays/relay-ip arguments were provided" *)
| ErrEmptyRelayArgument                     (* "argument to --relays/relay-ip is empty or has an extra comma" *)
| ErrRelayFormat (relay : string)           (* "... incorrect format '%s', should be IP:Port" *)
| ErrPortInvalid (port : string)            (* "port provided %v is not valid - %v" *)
| ErrHostInvalid (host : string)            (* "host provided %s is not valid - %v" *)
| ErrHostNoIPs (host : string)              (* "host provided %s has no IPs behind the domain name" *)
| ErrRelayList (cause : Error)              (* "failed to extract relay list: %v" *)
| ErrCacheLoad (httpErr : Error) (fileName : string) (cause : Error)
| ErrDeserialize (resp : string)            (* "could not deserialize '%s' response ..." *)
| ErrAccountModel (cause : Error)           (* "could not get account model from SDN: %v" *)
| ErrStatus (status : Z) (details : string) (* "%v to %v received a [%v]: %v" *)
| ErrOS (msg : string).                     (* an error of the network, the TLS layer or the file system *)

Inductive Result (A : Type) : Type :=
| Ok (a : A)
| Err (e : Error).
Arguments Ok {A} a.
Arguments Err {A} e.

Definition is_ok {A} (r : Result A) : bool :=
  match r with Ok _ => true | Err _ => false end.

Definition is_err {A} (r : Result A) : bool := negb (is_ok r).

(** ** The pieces of Go's [strings] and [strconv] the parser calls *)

(** [strings.Split(s, sep)] for a one-byte separator, the only use in the
    package ([","] and [":"]).  The empty string splits into one empty
    piece. *)
Fixpoint Split (sep : ascii) (s : string) : list string :=
  match s with
  | EmptyString => [EmptyString]
  | String c rest =>
      if Ascii.eqb c sep then EmptyString :: Split sep rest
      else match Split sep rest with
           | [] => [String c EmptyString]
           | w :: ws => String c w :: ws
           end
  end.

Fixpoint TrimLeft (cut : ascii) (s : string) : string :=
  match s with
  | EmptyString => EmptyString
  | String c rest => if Ascii.eqb c cut then TrimLeft cut rest else s
  end.

Fixpoint TrimRight (cut : ascii) (s : string) : string :=
  match s with
  | EmptyString => EmptyString
  | String c rest =>
      match TrimRight cut rest with
      | EmptyString => if Ascii.eqb c cut then EmptyString else String c EmptyString
      | r => String c r
      end
  end.

(** [strings.Trim(s, cutset)] for a one-byte cutset ([" "]). *)
Definition Trim (cut : ascii) (s : string) : string :=
  TrimRight cut (TrimLeft cut s).

Definition digit_val (c : ascii) : option Z :=
  let n := Z.of_N (N_of_ascii c) in
  if (48 <=? n) && (n <=? 57) then Some (n - 48) else None.

(** Decimal digits, most significant first, onto an accumulator. *)
Fixpoint digits_val (acc : Z) (s : string) : option Z :=
  match s with
  | EmptyString => Some acc
  | String c rest =>
      match digit_val c with
      | Some d => digits_val (acc * 10 + d) rest
      | None => None
      end
  end.

Definition MaxInt64 : Z := 2 ^ 63 - 1.
Definition MinInt64 : Z := - 2 ^ 63.

(** [strconv.Atoi]: an optional sign, at least one decimal digit, and a
    value that fits [int] (64 bits); the error carries no detail here. *)
Definition Atoi (s : string) : option Z :=
  let '(neg, body) :=
    match s with
    | String "-" rest => (true, rest)
    | String "+" rest => (false, rest)
    | _ => (false, s)
    end in
  match body with
  | EmptyString => None
  | _ =>
      match digits_val 0 body with
      | Some n =>
          let v := if neg then - n else n in
          if (MinInt64 <=? v) && (v <=? MaxInt64) then Some v else None
      | None => None
      end
  end.

(** ** Host resolution *)

(** What package [net] answers: [ParseIP] (is the text an IP literal),
    [LookupHost] and [LookupIP]. *)
Record Net : Type := {
  net_ParseIP : string -> bool;
  net_LookupHost : string -> Result (list string);
  net_LookupIP : string -> Result unit;
}.

(** [GetIP]: an IP literal is returned as it is; a name is replaced by its
    first address, after a lookup of that address. *)
Definition GetIP (net : Net) (host : string) : Result string :=
  if net_ParseIP net host then Ok host
  else
    match net_LookupHost net host with
    | Err _ => Err (ErrHostInvalid host)
    | Ok [] => Err (ErrHostNoIPs host)
    | Ok (ip0 :: _) =>
        match net_LookupIP net ip0 with
        | Err _ => Err (ErrHostInvalid host)
        | Ok _ => Ok ip0
        end
    end.

(** ** The relay-specification parser *)

Definition uint64 (x : Z) : Z := x mod 2 ^ 64.
Definition is_uint64 (x : Z) : Prop := 0 <= x < 2 ^ 64.

Definition defaultRelayPort : Z := 1809.

(** [relayMap] maps a relay's IP to its port; [autoCount] is a Go [int]. *)
Definition ParseState : Type := gmap string Z * Z.

Definition relayCount (st : ParseState) : Z := Z.of_nat (size st.1) + st.2.

(** What one token of the specification stands for, once trimmed. *)
Inductive Token : Type :=
| TAuto
| TRelay (ip : string) (port : Z).

(** The body of the loop of [parsedCmdlineRelays] below its limit test,
    up to the update of the map. *)
Definition parseToken (net : Net) (relay : string) : Result Token :=
  let suggestedRelayString := Trim " " relay in
  if decide (suggestedRelayString = "auto") then Ok TAuto
  else if decide (suggestedRelayString = "") then Err ErrEmptyRelayArgument
  else
    let suggestedRelaySplit := Split ":" suggestedRelayString in
    if decide (2 < length suggestedRelaySplit)%nat then Err (ErrRelayFormat relay)
    else
      let host := nth 0 suggestedRelaySplit "" in
      let port :=
        if decide (length suggestedRelaySplit = 2%nat)
        then match Atoi (nth 1 suggestedRelaySplit "") with
             | Some p => Ok p
             | None => Err (ErrPortInvalid (nth 1 suggestedRelaySplit ""))
             end
        else Ok defaultRelayPort in
      match port with
      | Err e => Err e
      | Ok port =>
          match GetIP net host with
          | Err e => Err e
          | Ok ip => Ok (TRelay ip port)
          end
      end.

(** The effect of a token on the state: [auto] is counted, a relay is
    stored unless its IP is already there. *)
Definition applyToken (t : Token) (st : ParseState) : ParseState :=
  match t with
  | TAuto => (st.1, st.2 + 1)
  | TRelay ip port =>
      match st.1 !! ip with
      | Some _ => st
      | None => (<[ip := port]> st.1, st.2)
      end
  end.

(** The [for ... range strings.Split(relayHosts, ",")] loop. *)
Fixpoint parseLoop (net : Net) (relayLimit : Z) (relays : list string)
    (st : ParseState) : Result ParseState :=
  match relays with
  | [] => Ok st
  | relay :: rest =>
      if uint64 (relayCount st) =? relayLimit then Ok st
      else
        match parseToken net relay with
        | Err e => Err e
        | Ok t => parseLoop net relayLimit rest (applyToken t st)
        end
  end.

Definition parsedCmdlineRelays (net : Net) (relayHosts : string) (relayLimit : Z)
  : Result ParseState :=
  if decide (String.length relayHosts = 0%nat) then Err ErrNoRelaysArgument
  else parseLoop net relayLimit (Split "," relayHosts) (∅, 0).

(** *** A resolver to run the parser on: IPv4 literals, no DNS *)

Definition ipv4_field (f : string) : bool :=
  match f with
  | EmptyString => false
  | String c rest =>
      match digits_val 0 f with
      | Some v =>
          (String.length f <=? 3)%nat && (v <=? 255)
          && negb (Ascii.eqb c "0" && negb (String.eqb rest ""))
      | None => false
      end
  end.

Definition ipv4_literal (s : string) : bool :=
  let fs := Split "." s in
  (length fs =? 4)%nat && forallb ipv4_field fs.

Definition offlineNet : Net := {|
  net_ParseIP := ipv4_literal;
  net_LookupHost := fun _ => Err (ErrOS "no such host");
  net_LookupIP := fun _ => Err (ErrOS "no such host");
|}.

(** The result with the map listed, for the examples. *)
Definition showParse (r : Result ParseState) : Result (list (string * Z) * Z) :=
  match r with
  | Ok (overrideRelays, autoCount) => Ok (map_to_list overrideRelays, autoCount)
  | Err e => Err e
  end.

(** ** The relay controller: data *)

(** Go's [float64] is IEEE 754 binary64: the primitive floats, whose sum
    is rounded to nearest and whose comparisons are false of a NaN. *)
Definition float64 : Type := PrimFloat.float.

Definition PingTimeout : float64 := 2000%float.
Definition latencyThreshold : float64 := 10%float.

(** [types.RelayInfo], the value of an entry of the ignored-relays map. *)
Record RelayInfo : Type := {
  ri_TimeAdded : Z;
  ri_Port : Z;
  ri_IsConnected : bool;
  ri_IsStatic : bool;
  ri_Latency : float64;
}.

Definition set_Latency (info : RelayInfo) (l : float64) : RelayInfo :=
  {| ri_TimeAdded := ri_TimeAdded info; ri_Port := ri_Port info;
     ri_IsConnected := ri_IsConnected info; ri_IsStatic := ri_IsStatic info;
     ri_Latency := l |}.

Record Peer : Type := { peer_IP : string; peer_Port : Z }.
Definition Peers : Type := list Peer.

Record nodeLatencyInfo : Type := {
  nl_IP : string;
  nl_Port : Z;
  nl_Latency : float64;
}.

Inductive ConnInstructionType : Type := Connect | Disconnect | Switch.

Record RelayInstruction : Type := {
  in_IP : string;
  in_Type : ConnInstructionType;
  in_Port : Z;
  in_IsStatic : bool;
  in_RelaysToSwitch : list nodeLatencyInfo;
}.

(** The key of the switch map: the relay to leave. *)
Record relayToSwitch : Type := { rs_ip : string; rs_port : Z }.

#[global] Instance relayToSwitch_eq_dec : EqDecision relayToSwitch.
Proof. solve_decision. Defined.

#[global] Instance relayToSwitch_countable : Countable relayToSwitch.
Proof.
  refine (inj_countable' (fun k => (rs_ip k, rs_port k))
                         (fun p => {| rs_ip := p.1; rs_port := p.2 |}) _).
  intros []; reflexivity.
Defined.

Record autoRelay : Type := { ar_ip : string; ar_relayInfo : RelayInfo }.

(** ** Bootstrap: [DirectRelayConnections] *)

(** What a call leaves behind: the error it returns, the instructions it
    sent on the channel before returning, the ignored-relays map, and the
    [manageAutoRelays] task it started, if any. *)
Record DirectOutcome : Type := {
  do_err : option Error;
  do_sent : list RelayInstruction;
  do_ignored : gmap string RelayInfo;
  do_spawned : option (Z * Peers);
}.

Definition staticInfo (now : Z) (port : Z) : RelayInfo :=
  {| ri_TimeAdded := now; ri_Port := port; ri_IsConnected := true;
     ri_IsStatic := true; ri_Latency := 0%float |}.

Definition connectStatic (ip : string) (port : Z) : RelayInstruction :=
  {| in_IP := ip; in_Type := Connect; in_Port := port; in_IsStatic := true;
     in_RelaysToSwitch := [] |}.

(** The [for ip, port := range overrideRelays] loop: a store, then a send.
    [clock k] is the reading of the k-th call of [time.Now]. *)
Fixpoint connectOverrides (clock : nat -> Z) (k : nat) (relays : list (string * Z))
    (ignoredRelays : gmap string RelayInfo) (sent : list RelayInstruction)
  : gmap string RelayInfo * list RelayInstruction :=
  match relays with
  | [] => (ignoredRelays, sent)
  | (ip, port) :: rest =>
      connectOverrides clock (S k) rest
        (<[ip := staticInfo (clock k) port]> ignoredRelays)
        (sent ++ [connectStatic ip port])%list
  end.

(** [getRelays] is the answer of [s.getRelays], asked only when an [auto]
    was counted. *)
Definition DirectRelayConnections (net : Net) (getRelays : Result Peers)
    (clock : nat -> Z) (relayHosts : string) (relayLimit : Z)
    (ignoredRelays : gmap string RelayInfo) : DirectOutcome :=
  match parsedCmdlineRelays net relayHosts relayLimit with
  | Err err =>
      {| do_err := Some err; do_sent := []; do_ignored := ignoredRelays;
         do_spawned := None |}
  | Ok (overrideRelays, autoCount) =>
      let '(ignored', sent) :=
        connectOverrides clock 0 (map_to_list overrideRelays) ignoredRelays [] in
      if autoCount =? 0 then
        {| do_err := None; do_sent := sent; do_ignored := ignored';
           do_spawned := None |}
      else
        match getRelays with
        | Err err =>
            {| do_err := Some (ErrRelayList err); do_sent := sent;
               do_ignored := ignored'; do_spawned := None |}
        | Ok relays =>
            if decide (length relays = 0%nat) then
              {| do_err := Some ErrNoRelays; do_sent := sent;
                 do_ignored := ignored'; do_spawned := None |}
            else
              {| do_err := None; do_sent := sent; do_ignored := ignored';
                 do_spawned := Some (autoCount, relays) |}
        end
  end.

(** ** Automatic relays: [manageAutoRelays] *)

Definition connectAuto (ip : string) (port : Z) : RelayInstruction :=
  {| in_IP := ip; in_Type := Connect; in_Port := port; in_IsStatic := false;
     in_RelaysToSwitch := [] |}.

Definition newAutoInfo (now : Z) (port : Z) : RelayInfo :=
  {| ri_TimeAdded := now; ri_Port := port; ri_IsConnected := true;
     ri_IsStatic := false; ri_Latency := 0%float |}.

(** The loop over the probes, fastest first.  [LoadOrStore] is a lookup
    and, on a miss, an insert; [clock k] is read at each of its calls.
    The task is taken to run with the map to itself. *)
Fixpoint connectFastest (net : Net) (clock : nat -> Z) (k : nat)
    (pingLatencies : list nodeLatencyInfo) (autoRelayCount autoRelayCounter : Z)
    (ignoredRelays : gmap string RelayInfo) (sent : list RelayInstruction)
  : gmap string RelayInfo * list RelayInstruction :=
  match pingLatencies with
  | [] => (ignoredRelays, sent)
  | pingLatency :: rest =>
      match GetIP net (nl_IP pingLatency) with
      | Err _ =>
          connectFastest net clock k rest autoRelayCount autoRelayCounter
            ignoredRelays sent
      | Ok newRelayIP =>
          match ignoredRelays !! newRelayIP with
          | Some _ =>
              connectFastest net clock (S k) rest autoRelayCount autoRelayCounter
                ignoredRelays sent
          | None =>
              let ignored' :=
                <[newRelayIP := newAutoInfo (clock k) (nl_Port pingLatency)]>
                  ignoredRelays in
              let sent' :=
                (sent ++ [connectAuto newRelayIP (nl_Port pingLatency)])%list in
              if autoRelayCounter + 1 =? autoRelayCount then (ignored', sent')
              else
                connectFastest net clock (S k) rest autoRelayCount
                  (autoRelayCounter + 1) ignored' sent'
          end
      end
  end.

Definition manageAutoRelays (net : Net)
    (getPingLatencies : Peers -> list nodeLatencyInfo) (clock : nat -> Z)
    (autoRelayCount : Z) (relays : Peers) (ignoredRelays : gmap string RelayInfo)
  : gmap string RelayInfo * list RelayInstruction :=
  let pingLatencies := getPingLatencies relays in
  if decide (length pingLatencies = 0%nat) then (ignoredRelays, [])
  else connectFastest net clock 0 pingLatencies autoRelayCount 0 ignoredRelays [].

(** A call of [DirectRelayConnections] followed by the task it started:
    all the instructions, in the order sent. *)
Definition bootstrap (net : Net) (getRelays : Result Peers)
    (getPingLatencies : Peers -> list nodeLatencyInfo) (clock : nat -> Z)
    (relayHosts : string) (relayLimit : Z) (ignoredRelays : gmap string RelayInfo)
  : option Error * list RelayInstruction :=
  let o := DirectRelayConnections net getRelays clock relayHosts relayLimit
             ignoredRelays in
  match do_spawned o with
  | None => (do_err o, do_sent o)
  | Some (autoCount, relays) =>
      (do_err o,
       (do_sent o
        ++ (manageAutoRelays net getPingLatencies clock autoCount relays
              (do_ignored o)).2)%list)
  end.

(** ** Periodic re-evaluation: [FindFastestRelays] *)

Definition getAutoConnectedRelays (ignoredRelays : gmap string RelayInfo)
  : gmap string RelayInfo :=
  map_fold
    (fun key value connectedAutoRelays =>
       if ri_IsConnected value && negb (ri_IsStatic value)
       then <[key := value]> connectedAutoRelays
       else connectedAutoRelays)
    ∅ ignoredRelays.

(** The map argument is a Go map: the caller sees the latencies written
    into it, so the updated map is returned next to the slice. *)
Fixpoint findFastestAvailableRelays (pingLatencies : list nodeLatencyInfo)
    (connectedAutoRelays : gmap string RelayInfo)
  : list nodeLatencyInfo * gmap string RelayInfo :=
  match pingLatencies with
  | [] => ([], connectedAutoRelays)
  | pingLatency :: rest =>
      match connectedAutoRelays !! nl_IP pingLatency with
      | Some info =>
          findFastestAvailableRelays rest
            (<[nl_IP pingLatency := set_Latency info (nl_Latency pingLatency)]>
               connectedAutoRelays)
      | None =>
          let '(fastestAvailableRelays, connected') :=
            findFastestAvailableRelays rest connectedAutoRelays in
          (pingLatency :: fastestAvailableRelays, connected')
      end
  end.

(** [sort.Slice] with [less i j := slice[i].Latency > slice[j].Latency]:
    worst-connected first.  [a] may stay before [b] when [less b a] is
    false. *)
Definition worseFirst (a b : autoRelay) : Prop :=
  PrimFloat.ltb (ri_Latency (ar_relayInfo a)) (ri_Latency (ar_relayInfo b)) = false.

#[global] Instance worseFirst_decision : RelDecision worseFirst.
Proof. intros a b. unfold worseFirst. apply _. Defined.

Definition convertMapToSortedSlice (connectedAutoRelays : gmap string RelayInfo)
  : list autoRelay :=
  merge_sort worseFirst
    ((fun kv => {| ar_ip := kv.1; ar_relayInfo := kv.2 |})
       <$> map_to_list connectedAutoRelays).

Definition switchKey (relay : autoRelay) : relayToSwitch :=
  {| rs_ip := ar_ip relay; rs_port := ri_Port (ar_relayInfo relay) |}.

(** The inner loop for one connected relay; leaving it early is the
    [continue OuterLoop]. *)
Fixpoint scanAvailable (relay : autoRelay) (fastestAvailableRelays : list nodeLatencyInfo)
    (relaysToSwitch : gmap relayToSwitch (list nodeLatencyInfo))
  : gmap relayToSwitch (list nodeLatencyInfo) :=
  match fastestAvailableRelays with
  | [] => relaysToSwitch
  | pingLatency :: rest =>
      if PrimFloat.ltb (ri_Latency (ar_relayInfo relay))
                       (nl_Latency pingLatency + latencyThreshold)%float
      then relaysToSwitch
      else
        scanAvailable relay rest
          (<[switchKey relay :=
               (default [] (relaysToSwitch !! switchKey relay) ++ [pingLatency])%list]>
             relaysToSwitch)
  end.

Definition findRelaysToSwitch (connectedAutoRelays : gmap string RelayInfo)
    (fastestAvailableRelays : list nodeLatencyInfo)
  : gmap relayToSwitch (list nodeLatencyInfo) :=
  foldl (fun relaysToSwitch relay =>
           scanAvailable relay fastestAvailableRelays relaysToSwitch)
        ∅ (convertMapToSortedSlice connectedAutoRelays).

Definition switchInstruction (kv : relayToSwitch * list nodeLatencyInfo)
  : RelayInstruction :=
  {| in_IP := rs_ip kv.1; in_Type := Switch; in_Port := rs_port kv.1;
     in_IsStatic := false; in_RelaysToSwitch := kv.2 |}.

(** The instructions one call sends.  [getRelays] is the answer of
    [s.getRelays], [getPingLatencies] the prober held by the session. *)
Definition FindFastestRelays (getRelays : Result Peers)
    (getPingLatencies : Peers -> list nodeLatencyInfo)
    (ignoredRelays : gmap string RelayInfo) : list RelayInstruction :=
  match getRelays with
  | Err _ => []
  | Ok relays =>
      let pingLatencies := getPingLatencies relays in
      if decide (length pingLatencies = 0%nat) then []
      else
        let connectedAutoRelays := getAutoConnectedRelays ignoredRelays in
        let '(fastestAvailableRelays, connectedAutoRelays) :=
          findFastestAvailableRelays pingLatencies connectedAutoRelays in
        let relaysToSwitch :=
          findRelaysToSwitch connectedAutoRelays fastestAvailableRelays in
        switchInstruction <$> map_to_list relaysToSwitch
  end.

(** The data of [TestFindRelaysToSwitch]. *)
Definition autoInfo (port : Z) (latency : float64) : RelayInfo :=
  {| ri_TimeAdded := 0; ri_Port := port; ri_IsConnected := true;
     ri_IsStatic := false; ri_Latency := latency |}.

Definition probe (ip : string) (latency : float64) : nodeLatencyInfo :=
  {| nl_IP := ip; nl_Port := 1809; nl_Latency := latency |}.

Definition test_autoRelay : gmap string RelayInfo :=
  <["1.1.1.1" := autoInfo 1809 15%float]>
    (<["2.2.2.2" := autoInfo 1809 26%float]> (<["3.3.3.3" := autoInfo 1809 8%float]> ∅)).

Definition test_fastest : list nodeLatencyInfo :=
  [ probe "4.4.4.4" 3%float; probe "5.5.5.5" 10%float ].

(** Scenario S5 of the specification as [FindFastestRelays] meets it:
    three automatic relays and a static one in the map, and the probes of
    all candidates, ascending. *)
Definition s5_ignored : gmap string RelayInfo :=
  <["1.1.1.1" := autoInfo 1809 0%float]>
    (<["2.2.2.2" := autoInfo 1809 0%float]>
       (<["3.3.3.3" := autoInfo 1809 0%float]>
          (<["9.9.9.9" := staticInfo 0 1809]> ∅))).

Definition s5_probes : list nodeLatencyInfo :=
  [ probe "4.4.4.4" 3%float; probe "3.3.3.3" 8%float; probe "5.5.5.5" 10%float;
    probe "1.1.1.1" 15%float; probe "2.2.2.2" 26%float; probe "9.9.9.9" 40%float ].

Definition s5_switch_2 : RelayInstruction :=
  switchInstruction
    ({| rs_ip := "2.2.2.2"; rs_port := 1809 |},
     [ probe "4.4.4.4" 3%float; probe "5.5.5.5" 10%float ]).

(** A relay and a candidate whose latencies, 16.016 ms and 6.016 ms as
    binary64, differ by less than 10 while the sum 6.016 + 10 rounds to
    the first. *)
Definition rounding_ignored : gmap string RelayInfo :=
  <["1.1.1.1" := autoInfo 1809 0%float]> ∅.

Definition rounding_probes : list nodeLatencyInfo :=
  [ probe "4.4.4.4" 0x1.810624dd2f1aap+2%float;
    probe "1.1.1.1" 0x1.004189374bc6ap+4%float ].

(** ** The cache files *)

(** How an update of the file at a path ends: it goes through; or the
    open fails, with the disk untouched; or the write or the flush fails,
    after [O_CREATE] has made the file and [written] bytes of the value
    went over its start. *)
Inductive UpdateOutcome : Type :=
| Updated
| OpenFails
| WriteFails (written : nat).

(** The disk: the files by path, a path being the text [path.Join] hands
    to [os.OpenFile] and [os.Open], and how an update of each path ends.
    A file that is there can be read. *)
Record FileSystem : Type := {
  fs_files : gmap string string;
  fs_update : string -> UpdateOutcome;
}.

(** The update of the file at [cacheFileName] goes through: open, write
    and flush all succeed. *)
Definition fs_canWrite (fs : FileSystem) (cacheFileName : string) : bool :=
  match fs_update fs cacheFileName with
  | Updated => true
  | _ => false
  end.

(** The loop of [path.Clean] over the elements between the slashes, the
    elements kept so far last first: an empty element and [.] are
    dropped; [..] removes the element before it, or is kept when there is
    none to remove and the path is not rooted, and dropped at the root. *)
Fixpoint cleanElements (rooted : bool) (elements out : list string) : list string :=
  match elements with
  | [] => out
  | element :: rest =>
      if decide (element = "") then cleanElements rooted rest out
      else if decide (element = ".") then cleanElements rooted rest out
      else if decide (element = "..") then
        match out with
        | top :: below =>
            if decide (top = "..") then cleanElements rooted rest (".." :: out)
            else cleanElements rooted rest below
        | [] =>
            if rooted then cleanElements rooted rest []
            else cleanElements rooted rest [".."]
        end
      else cleanElements rooted rest (element :: out)
  end.

(** [path.Clean]: the shortest path that names the same file by the
    text alone; the empty path becomes [.]. *)
Definition path_Clean (path : string) : string :=
  match path with
  | EmptyString => "."
  | String c _ =>
      let rooted := Ascii.eqb c "/" in
      let out := String.concat "/" (rev (cleanElements rooted (Split "/" path) [])) in
      if rooted then "/" ++ out
      else if decide (out = "") then "." else out
  end.

(** [path.Join] of a directory and a file name: the elements that are
    not empty, joined by a slash, then cleaned; nothing when both are
    empty. *)
Definition path_Join (dataDir fileName : string) : string :=
  if decide (dataDir = "") then
    if decide (fileName = "") then "" else path_Clean fileName
  else if decide (fileName = "") then path_Clean dataDir
  else path_Clean (dataDir ++ "/" ++ fileName).

Fixpoint dropBytes (n : nat) (s : string) : string :=
  match n, s with
  | O, _ => s
  | S _, EmptyString => EmptyString
  | S n', String _ rest => dropBytes n' rest
  end.

(** Writing [value] from offset 0 into a file opened with
    [os.O_CREATE|os.O_WRONLY]: the bytes past the end of [value] stay. *)
Definition writeFromStart (old value : string) : string :=
  value ++ dropBytes (String.length value) old.

Fixpoint takeBytes (n : nat) (s : string) : string :=
  match n, s with
  | O, _ => EmptyString
  | S _, EmptyString => EmptyString
  | S n', String c rest => String c (takeBytes n' rest)
  end.

(** [UpdateCacheFile]: the error of [os.OpenFile] is returned before
    anything is written; the errors of [writer.Write] and [writer.Flush]
    are returned after the file was made and a part of [value], possibly
    none or all of it, was written from offset 0. *)
Definition UpdateCacheFile (fs : FileSystem) (dataDir fileName value : string)
  : option Error * FileSystem :=
  let cacheFileName := path_Join dataDir fileName in
  let old := default "" (fs_files fs !! cacheFileName) in
  match fs_update fs cacheFileName with
  | OpenFails => (Some (ErrOS "open"), fs)
  | WriteFails written =>
      (Some (ErrOS "write"),
       {| fs_files :=
            <[cacheFileName := writeFromStart old (takeBytes written value)]>
              (fs_files fs);
          fs_update := fs_update fs |})
  | Updated =>
      (None,
       {| fs_files := <[cacheFileName := writeFromStart old value]> (fs_files fs);
          fs_update := fs_update fs |})
  end.

Definition LoadCacheFile (fs : FileSystem) (dataDir fileName : string)
  : Result string :=
  let cacheFileName := path_Join dataDir fileName in
  match fs_files fs !! cacheFileName with
  | Some bytes => Ok bytes
  | None => Err (ErrOS "open")
  end.

(** ** The HTTP layer *)

(** What the directory does with one request. *)
Inductive HttpReply : Type :=
| NoClient (e : Error)                     (* [s.httpClient()] failed *)
| NoResponse (e : Error)                   (* [client.Get] or [client.Post] failed *)
| Response (status : Z) (body : Result string).  (* a response; [io.ReadAll] of its body *)

Definition StatusServiceUnavailable : Z := 503.

(** [errors.Is(err, ErrSDNUnavailable)]; no error of the package wraps
    the sentinel. *)
Definition isSDNUnavailable (e : Error) : bool :=
  match e with ErrSDNUnavailable => true | _ => false end.

(** [s.http] for a [GET] or a [POST], the methods the package uses;
    [errorDetails] is [json.Unmarshal] into [message.ErrorMessage], read
    at [Details].  A response of Go's client always carries a body, so the
    branch for a missing one is not there. *)
Definition http (errorDetails : string -> option string) (reply : HttpReply)
  : Result string :=
  match reply with
  | NoClient e => Err e
  | NoResponse e => Err e
  | Response status body =>
      if negb (status =? 200) then
        if status =? StatusServiceUnavailable then Err ErrSDNUnavailable
        else
          match body with
          | Err _ => Err (ErrOS "could not read response")
          | Ok b =>
              match errorDetails b with
              | None => Err (ErrDeserialize b)
              | Some details => Err (ErrStatus status details)
              end
          end
      else
        match body with
        | Err _ => Err (ErrOS "could not read response")
        | Ok b => Ok b
        end
  end.

Definition httpWithCache (errorDetails : string -> option string)
    (fs : FileSystem) (dataDir : string) (reply : HttpReply) (fileName : string)
  : Result string * FileSystem :=
  match http errorDetails reply with
  | Err httpErr =>
      if isSDNUnavailable httpErr then
        match LoadCacheFile fs dataDir fileName with
        | Err err => (Err (ErrCacheLoad httpErr fileName err), fs)
        | Ok data => (Ok data, fs)
        end
      else (Err httpErr, fs)
  | Ok data =>
      let '(_, fs') := UpdateCacheFile fs dataDir fileName data in
      (Ok data, fs')
  end.

Definition blockchainNetworksCacheFileName : string := "blockchainNetworks.json".
Definition blockchainNetworkCacheFileName : string := "blockchainNetwork.json".
Definition nodeModelCacheFileName : string := "nodemodel.json".
Definition potentialRelaysFileName : string := "potentialrelays.json".
Definition accountModelsFileName : string := "accountmodel.json".

(** ** Directory records *)

Definition EthereumProtocol : string := "Ethereum".

(** What a field of type [interface{}] can hold, by dynamic type: nothing,
    an [int], a [float64] (what [encoding/json] decodes a number into), a
    [string], a [*big.Int], or a value of another type, named. *)
Inductive Any : Type :=
| any_nil
| any_int (n : Z)
| any_float64 (f : float64)
| any_string (s : string)
| any_bigInt (n : Z)
| any_other (type : string).

(** [v == 0] for [v] of type [interface{}]: the constant is an [int], and
    the two are equal when [v] holds an [int] and it is 0. *)
Definition any_is_int_0 (v : Any) : bool :=
  match v with
  | any_int n => n =? 0
  | _ => false
  end.

(** [TerminalTotalDifficulty] is compared with 0 and assigned a
    [*big.Int]: its type is [interface{}]. *)
Record BlockchainAttributes : Type := {
  TerminalTotalDifficulty : Any;
}.

Record BlockchainNetwork : Type := {
  bn_NetworkNum : Z;
  bn_Protocol : string;
  bn_MinTxAgeSeconds : float64;
  bn_DefaultAttributes : BlockchainAttributes;
}.

(** [new(message.BlockchainNetwork)] *)
Definition zeroBlockchainNetwork : BlockchainNetwork :=
  {| bn_NetworkNum := 0; bn_Protocol := ""; bn_MinTxAgeSeconds := 0%float;
     bn_DefaultAttributes := {| TerminalTotalDifficulty := any_nil |} |}.

Definition set_TerminalTotalDifficulty (n : BlockchainNetwork) (ttd : Any)
  : BlockchainNetwork :=
  {| bn_NetworkNum := bn_NetworkNum n; bn_Protocol := bn_Protocol n;
     bn_MinTxAgeSeconds := bn_MinTxAgeSeconds n;
     bn_DefaultAttributes := {| TerminalTotalDifficulty := ttd |} |}.

(** [BDNServiceLimit] is unsigned: the tests load 13614113913969504939. *)
Record BDNService : Type := { Limit : N }.

Record BDNQuotaService : Type := {
  ExpireDate : string;
  MsgQuota : BDNService;
}.

(** The fields of [message.Account] the session reads, and two plain ones. *)
Record Account : Type := {
  acc_AccountID : string;
  acc_TierName : string;
  acc_RelayLimit : BDNQuotaService;
  acc_MaxAllowedNodes : BDNQuotaService;
}.

Definition zeroQuota : BDNQuotaService :=
  {| ExpireDate := ""; MsgQuota := {| Limit := 0%N |} |}.

(** [message.Account{}] *)
Definition zeroAccount : Account :=
  {| acc_AccountID := ""; acc_TierName := "";
     acc_RelayLimit := zeroQuota; acc_MaxAllowedNodes := zeroQuota |}.

Definition set_Limit (q : BDNQuotaService) (l : N) : BDNQuotaService :=
  {| ExpireDate := ExpireDate q; MsgQuota := {| Limit := l |} |}.

Definition set_RelayLimit (a : Account) (q : BDNQuotaService) : Account :=
  {| acc_AccountID := acc_AccountID a; acc_TierName := acc_TierName a;
     acc_RelayLimit := q; acc_MaxAllowedNodes := acc_MaxAllowedNodes a |}.

Definition set_MaxAllowedNodes (a : Account) (q : BDNQuotaService) : Account :=
  {| acc_AccountID := acc_AccountID a; acc_TierName := acc_TierName a;
     acc_RelayLimit := acc_RelayLimit a; acc_MaxAllowedNodes := q |}.

(** [encoding/json] on the records above.  Decoding into an existing
    value keeps the fields the text does not name, and may have written
    some fields when it fails: the value comes back next to the verdict. *)
Record Json : Type := {
  json_ErrorMessage : string -> option string;
  json_BlockchainNetwork : string -> BlockchainNetwork -> BlockchainNetwork * bool;
  json_BlockchainNetworks : string -> option (list BlockchainNetwork);
  json_Account : string -> Account -> Account * bool;
  json_Peers : string -> option Peers;
}.

(** The fields of [realSDNHTTP] the functions below read or write;
    [networkNum] is [nodeModel.BlockchainNetworkNum]. *)
Record realSDNHTTP : Type := {
  networks : gmap Z BlockchainNetwork;
  accountModel : option Account;
  networkNum : Z;
  dataDir : string;
}.

Definition set_networks (s : realSDNHTTP) (ns : gmap Z BlockchainNetwork) : realSDNHTTP :=
  {| networks := ns; accountModel := accountModel s;
     networkNum := networkNum s; dataDir := dataDir s |}.

Definition set_accountModel (s : realSDNHTTP) (a : Account) : realSDNHTTP :=
  {| networks := networks s; accountModel := Some a;
     networkNum := networkNum s; dataDir := dataDir s |}.

(** ** Blockchain networks *)

(** [math.MaxInt] on a 64-bit platform. *)
Definition MaxInt : Z := MaxInt64.

Definition FetchBlockchainNetwork (json : Json) (s : realSDNHTTP)
    (fs : FileSystem) (reply : HttpReply)
  : option Error * realSDNHTTP * FileSystem :=
  let networkNum := networkNum s in
  match httpWithCache (json_ErrorMessage json) fs (dataDir s) reply
          blockchainNetworkCacheFileName with
  | (Err err, fs') => (Some err, s, fs')
  | (Ok resp, fs') =>
      let target := default zeroBlockchainNetwork (networks s !! networkNum) in
      let '(decoded, ok) := json_BlockchainNetwork json resp target in
      if ok then
        let stored :=
          if bool_decide (bn_Protocol decoded = EthereumProtocol)
             && any_is_int_0 (TerminalTotalDifficulty (bn_DefaultAttributes decoded))
          then set_TerminalTotalDifficulty decoded (any_bigInt MaxInt)
          else decoded in
        (None, set_networks s (<[networkNum := stored]> (networks s)), fs')
      else
        (Some (ErrDeserialize resp),
         set_networks s (<[networkNum := decoded]> (networks s)), fs')
  end.

Definition getBlockchainNetworks (json : Json) (s : realSDNHTTP)
    (fs : FileSystem) (reply : HttpReply)
  : option Error * realSDNHTTP * FileSystem :=
  match httpWithCache (json_ErrorMessage json) fs (dataDir s) reply
          blockchainNetworksCacheFileName with
  | (Err err, fs') => (Some err, s, fs')
  | (Ok resp, fs') =>
      match json_BlockchainNetworks json resp with
      | None => (Some (ErrDeserialize resp), s, fs')
      | Some nets =>
          (None,
           set_networks s
             (foldl (fun m network => <[bn_NetworkNum network := network]> m) ∅ nets),
           fs')
      end
  end.

Definition FetchAllBlockchainNetworks (json : Json) (s : realSDNHTTP)
    (fs : FileSystem) (reply : HttpReply)
  : option Error * realSDNHTTP * FileSystem :=
  getBlockchainNetworks json s fs reply.

(** ** The account model *)

Definition mergeString (dflt loaded : string) : string :=
  if decide (loaded = "") then dflt else loaded.

Definition mergeLimit (dflt loaded : N) : N :=
  if (loaded =? 0)%N then dflt else loaded.

Definition mergeQuota (dflt loaded : BDNQuotaService) : BDNQuotaService :=
  {| ExpireDate := mergeString (ExpireDate dflt) (ExpireDate loaded);
     MsgQuota := {| Limit := mergeLimit (Limit (MsgQuota dflt)) (Limit (MsgQuota loaded)) |} |}.

(** [copier.CopyWithOption(&to, from, Option{IgnoreEmpty: true, DeepCopy: true})]
    between two accounts: a field of [from] that is empty leaves the
    field of [to] alone, down to the leaves.  Between values of one
    struct type it returns no error. *)
Definition CopyIgnoreEmpty (to from : Account) : Account :=
  {| acc_AccountID := mergeString (acc_AccountID to) (acc_AccountID from);
     acc_TierName := mergeString (acc_TierName to) (acc_TierName from);
     acc_RelayLimit := mergeQuota (acc_RelayLimit to) (acc_RelayLimit from);
     acc_MaxAllowedNodes := mergeQuota (acc_MaxAllowedNodes to) (acc_MaxAllowedNodes from) |}.

Definition copier_CopyWithOption (to from : Account) : Account * option Error :=
  (CopyIgnoreEmpty to from, None).

(** [defaultElite] is [message.GetDefaultEliteAccount(now)]. *)
Definition fillInAccountDefaults (defaultElite : Account) (accountModel : Account)
  : Account * option Error :=
  let '(mappedAccountModel, err) := copier_CopyWithOption defaultElite accountModel in
  match err with
  | Some _ => (accountModel, err)
  | None => (mappedAccountModel, err)
  end.

Inductive AccountEndpoint : Type := EndpointAccounts | EndpointAccount.

Definition getAccountModelWithEndpoint (json : Json) (defaultElite : Account)
    (s : realSDNHTTP) (fs : FileSystem) (reply : HttpReply)
    (endpoint : AccountEndpoint)
  : Account * option Error * FileSystem :=
  let accountModel := zeroAccount in
  let '(resp, fs') :=
    match endpoint with
    | EndpointAccounts => (http (json_ErrorMessage json) reply, fs)
    | EndpointAccount =>
        httpWithCache (json_ErrorMessage json) fs (dataDir s) reply accountModelsFileName
    end in
  match resp with
  | Err err => (accountModel, Some (ErrAccountModel err), fs')
  | Ok resp =>
      let '(accountModel, ok) := json_Account json resp accountModel in
      if ok then
        let '(filled, err) := fillInAccountDefaults defaultElite accountModel in
        (filled, err, fs')
      else (accountModel, Some (ErrDeserialize resp), fs')
  end.

Definition getAccountModel (json : Json) (defaultElite : Account)
    (s : realSDNHTTP) (fs : FileSystem) (reply : HttpReply)
  : option Error * realSDNHTTP * FileSystem :=
  let '(accountModel, err, fs') :=
    getAccountModelWithEndpoint json defaultElite s fs reply EndpointAccount in
  let accountModel :=
    if (Limit (MsgQuota (acc_RelayLimit accountModel)) =? 0)%N
    then set_RelayLimit accountModel (set_Limit (acc_RelayLimit accountModel) 1%N)
    else accountModel in
  let accountModel :=
    if (Limit (MsgQuota (acc_MaxAllowedNodes accountModel)) =? 0)%N
    then set_MaxAllowedNodes accountModel (set_Limit (acc_MaxAllowedNodes accountModel) 6%N)
    else accountModel in
  (err, set_accountModel s accountModel, fs').

Definition FetchCustomerAccountModel (json : Json) (defaultElite : Account)
    (s : realSDNHTTP) (fs : FileSystem) (reply : HttpReply)
  : Account * option Error * FileSystem :=
  getAccountModelWithEndpoint json defaultElite s fs reply EndpointAccounts.

(** [s.getRelays], the source of the candidates of the controller. *)
Definition getRelays (json : Json) (s : realSDNHTTP) (fs : FileSystem)
    (reply : HttpReply) : Result Peers * FileSystem :=
  match httpWithCache (json_ErrorMessage json) fs (dataDir s) reply
          potentialRelaysFileName with
  | (Err err, fs') => (Err err, fs')
  | (Ok resp, fs') =>
      match json_Peers json resp with
      | None => (Err (ErrDeserialize resp), fs')
      | Some relays => (Ok relays, fs')
      end
  end.

(** ** Notions the properties are stated with *)

(** The state [parsedCmdlineRelays] starts its loop in. *)
Definition initial : ParseState := (∅, 0).

(** The invariant of the loop: the count is at most the limit. *)
Definition within (relayLimit : Z) (st : ParseState) : Prop :=
  0 <= st.2 /\ relayCount st <= relayLimit.

(** A token the specification calls fatal: once trimmed it is not [auto]
    and it is empty, or has more than one [:], or has a port that is not
    an integer, or names a host that does not resolve. *)
Definition Malformed (net : Net) (relay : string) : Prop :=
  let token := Trim " " relay in
  let pieces := Split ":" token in
  token <> "auto"
  /\ (token = ""
      \/ (2 < length pieces)%nat
      \/ (length pieces = 2%nat /\ Atoi (nth 1 pieces "") = None)
      \/ is_err (GetIP net (nth 0 pieces "")) = true).

(** A specification that is empty, or whose tokens reach a malformed one
    while the relays counted are still short of the limit. *)
Definition ConfigError (net : Net) (relayLimit : Z) (relayHosts : string) : Prop :=
  relayHosts = ""
  \/ exists pre relay post st,
       Split "," relayHosts = (pre ++ relay :: post)%list
       /\ parseLoop net relayLimit pre initial = Ok st
       /\ uint64 (relayCount st) <> relayLimit
       /\ Malformed net relay.

(** A call that returned an error and did nothing else. *)
Definition rejected (ignoredRelays : gmap string RelayInfo) (o : DirectOutcome) : Prop :=
  is_Some (do_err o) /\ do_sent o = [] /\ do_ignored o = ignoredRelays
  /\ do_spawned o = None.

(** The latency the re-evaluation holds for a connected relay: the one
    of its last probe, or the stored one when no probe names it. *)
Definition probedLatency (pingLatencies : list nodeLatencyInfo) (ip : string)
    (stored : float64) : float64 :=
  foldl (fun latency pingLatency =>
           if decide (nl_IP pingLatency = ip) then nl_Latency pingLatency else latency)
        stored pingLatencies.

(** The candidates the inner loop of [findRelaysToSwitch] appends for a
    relay of latency [latency]: those before the first one that does not
    clear the threshold. *)
Fixpoint clearing (latency : float64) (fastestAvailableRelays : list nodeLatencyInfo)
  : list nodeLatencyInfo :=
  match fastestAvailableRelays with
  | [] => []
  | pingLatency :: rest =>
      if PrimFloat.ltb latency (nl_Latency pingLatency + latencyThreshold)%float then []
      else pingLatency :: clearing latency rest
  end.

(** Ascending by latency, as [getPingLatencies] sorts with
    [less i j := Latency i < Latency j]: the later is not less than the
    earlier. *)
Definition byLatency (a b : nodeLatencyInfo) : Prop :=
  PrimFloat.ltb (nl_Latency b) (nl_Latency a) = false.

(** The place of a float that is no NaN in the order of [<]: its class,
    then exponent and mantissa, as [SFcompare] reads them. *)
Definition rank (x : spec_float) : Z * (Z * Z) :=
  match x with
  | S754_infinity true => (-2, (0, 0))
  | S754_finite true m e => (-1, (- e, - Zpos m))
  | S754_zero _ => (0, (0, 0))
  | S754_nan => (0, (0, 0))
  | S754_finite false m e => (1, (e, Zpos m))
  | S754_infinity false => (2, (0, 0))
  end.

Definition lexLt (a b : Z * (Z * Z)) : Prop :=
  a.1 < b.1
  \/ (a.1 = b.1 /\ (a.2.1 < b.2.1 \/ (a.2.1 = b.2.1 /\ a.2.2 < b.2.2))).

(** A float that is not a NaN: it equals itself. *)
Definition notNaN (x : float64) : Prop := PrimFloat.eqb x x = true.

(** The rational a finite float stands for (0 for the others). *)
Definition valueOf (x : float64) : Q :=
  match Prim2SF x with
  | S754_finite s m e =>
      ((if s then -1 else 1) * inject_Z (Zpos m) * Qpower 2 e)%Q
  | _ => 0%Q
  end.

(** Two values of one entry that differ in the latency at most. *)
Definition sameRelay (a b : RelayInfo) : Prop :=
  ri_TimeAdded a = ri_TimeAdded b /\ ri_Port a = ri_Port b
  /\ ri_IsConnected a = ri_IsConnected b /\ ri_IsStatic a = ri_IsStatic b.

(** ** Data for the examples *)

Definition clockZero : nat -> Z := fun _ => 0.

(** A disk that takes every write. *)
Definition diskOf (files : gmap string string) : FileSystem :=
  {| fs_files := files; fs_update := fun _ => Updated |}.

(** Network 5 as it is decoded when no terminal total difficulty is
    configured: the difficulty is the [int] 0, the value the test of
    [FetchBlockchainNetwork] looks for. *)
Definition mainnet : BlockchainNetwork :=
  {| bn_NetworkNum := 5; bn_Protocol := "Ethereum"; bn_MinTxAgeSeconds := 0%float;
     bn_DefaultAttributes := {| TerminalTotalDifficulty := any_int 0 |} |}.

(** The account of [TestSDNHTTP_InitGateway]: a relay limit of 0. *)
Definition loadedAccount : Account :=
  {| acc_AccountID := "e64yrte6547"; acc_TierName := "";
     acc_RelayLimit := zeroQuota; acc_MaxAllowedNodes := zeroQuota |}.

(** A decoder for the examples: every text is read as [mainnet], the list
    of [mainnet] alone, [loadedAccount], and no peers. *)
Definition fixedJson : Json := {|
  json_ErrorMessage := fun _ => Some "";
  json_BlockchainNetwork := fun _ _ => (mainnet, true);
  json_BlockchainNetworks := fun _ => Some [mainnet];
  json_Account := fun _ _ => (loadedAccount, true);
  json_Peers := fun _ => Some [];
|}.

(** A default account with a relay limit of 2, as the test expects, and
    nothing else set. *)
Definition eliteAccount : Account :=
  {| acc_AccountID := ""; acc_TierName := "";
     acc_RelayLimit := {| ExpireDate := ""; MsgQuota := {| Limit := 2%N |} |};
     acc_MaxAllowedNodes := zeroQuota |}.

Definition emptySession : realSDNHTTP :=
  {| networks := ∅; accountModel := None; networkNum := 5; dataDir := "" |}.

(** The candidates and latencies of scenarios S1 to S3. *)
Definition s1_peers : Peers :=
  [ {| peer_IP := "1.1.1.1"; peer_Port := 1809 |};
    {| peer_IP := "2.2.2.2"; peer_Port := 1809 |} ].

Definition s1_latencies : Peers -> list nodeLatencyInfo :=
  fun _ => [ probe "1.1.1.1" 5%float; probe "2.2.2.2" 6%float ].

Definition oneRelay : gmap string Z := <["1.1.1.1" := 1809]> ∅.

(** ** Failure recovery: [connectToNewRelay] and [FindNewRelay] *)

Definition connectToNewRelay (net : Net)
    (getPingLatencies : Peers -> list nodeLatencyInfo) (clock : nat -> Z)
    (getRelays : Result Peers) (ignoredRelays : gmap string RelayInfo)
  : option Error * (gmap string RelayInfo * list RelayInstruction) :=
  match getRelays with
  | Err err => (Some (ErrRelayList err), (ignoredRelays, []))
  | Ok relays =>
      if decide (length relays = 0%nat) then (Some ErrNoRelays, (ignoredRelays, []))
      else (None, manageAutoRelays net getPingLatencies clock 1 relays ignoredRelays)
  end.

(** What ends the wait after a failed attempt: the timer of
    [types.RelayMonitorInterval] or the context. *)
Inductive Wait : Type := TimerFired | ContextDone.

(** The [for] loop of [FindNewRelay] over the attempts it gets to make:
    the answer of the directory at each, and what ends the wait after it.
    [None] is a loop that has not returned after all of them. *)
Fixpoint retryConnect (net : Net)
    (getPingLatencies : Peers -> list nodeLatencyInfo) (clock : nat -> Z)
    (attempts : list (Result Peers * Wait)) (ignoredRelays : gmap string RelayInfo)
  : option (gmap string RelayInfo * list RelayInstruction) :=
  match attempts with
  | [] => None
  | (getRelays, wait) :: rest =>
      match connectToNewRelay net getPingLatencies clock getRelays ignoredRelays with
      | (None, done) => Some done
      | (Some _, _) =>
          match wait with
          | ContextDone => Some (ignoredRelays, [])
          | TimerFired => retryConnect net getPingLatencies clock rest ignoredRelays
          end
      end
  end.

Definition retiredInfo (now : Z) (port : Z) : RelayInfo :=
  {| ri_TimeAdded := now; ri_Port := port; ri_IsConnected := false;
     ri_IsStatic := false; ri_Latency := 0%float |}.

Definition FindNewRelay (net : Net)
    (getPingLatencies : Peers -> list nodeLatencyInfo) (now : Z) (clock : nat -> Z)
    (oldRelayIP : string) (oldRelayIPPort : Z)
    (attempts : list (Result Peers * Wait)) (ignoredRelays : gmap string RelayInfo)
  : option (gmap string RelayInfo * list RelayInstruction) :=
  retryConnect net getPingLatencies clock attempts
    (<[oldRelayIP := retiredInfo now oldRelayIPPort]> ignoredRelays).

(** An attempt that ends the loop: the directory answered with relays, or
    the context was done after the failure. *)
Definition endsLoop (attempt : Result Peers * Wait) : Prop :=
  (exists relays, attempt.1 = Ok relays /\ relays <> []) \/ attempt.2 = ContextDone.

(** An automatic connection as [manageAutoRelays] makes it: the
    instruction, and the entry it stands for. *)
Definition isAutoConnect (instruction : RelayInstruction) : Prop :=
  in_Type instruction = Connect /\ in_IsStatic instruction = false
  /\ in_RelaysToSwitch instruction = [].

Definition isAutoEntry (port : Z) (info : RelayInfo) : Prop :=
  ri_Port info = port /\ ri_IsConnected info = true /\ ri_IsStatic info = false.

Definition isStaticEntry (port : Z) (info : RelayInfo) : Prop :=
  ri_Port info = port /\ ri_IsConnected info = true /\ ri_IsStatic info = true.

(** The [Switch] the re-evaluation sends for the relay [ip] stored as
    [info], given the probes: the targets are the available candidates
    that clear the threshold against the latency just probed. *)
Definition switchFor (pingLatencies : list nodeLatencyInfo)
    (ignoredRelays : gmap string RelayInfo) (ip : string) (info : RelayInfo)
  : RelayInstruction :=
  {| in_IP := ip; in_Type := Switch; in_Port := ri_Port info; in_IsStatic := false;
     in_RelaysToSwitch :=
       clearing (probedLatency pingLatencies ip (ri_Latency info))
         (findFastestAvailableRelays pingLatencies
            (getAutoConnectedRelays ignoredRelays)).1 |}.

(** The [Connect] sent for an override relay. *)
Definition connectOf (relay : string * Z) : RelayInstruction :=
  connectStatic relay.1 relay.2.

(** ** The latency prober: [getPingLatencies] *)

(** What the prober gets from outside: the standard output of
    [ping <ip> -c1 -W2] when the command ran without error, and the value
    [strconv.ParseFloat] returns for a text (0 for a text that is no
    number; the error is dropped by the caller). *)
Record Prober : Type := {
  ping_stdout : string -> option string;
  strconv_ParseFloat : string -> float64;
}.

(** The text after the leftmost ["= "]. *)
Fixpoint afterEquals (out : string) : option string :=
  match out with
  | EmptyString => None
  | String c rest =>
      match rest with
      | String c' rest' =>
          if Ascii.eqb c "=" && Ascii.eqb c' " " then Some rest'
          else afterEquals rest
      | EmptyString => None
      end
  end.

(** The longest prefix without a [/]. *)
Fixpoint untilSlash (s : string) : string :=
  match s with
  | EmptyString => EmptyString
  | String c rest => if Ascii.eqb c "/" then EmptyString else String c (untilSlash rest)
  end.

(** [regexp.MustCompile(TimeRegEx).FindStringSubmatch(out)], read at its
    group 1.  [TimeRegEx] is an equals sign, a space, and a group of any
    number of characters other than a slash: the leftmost match, its
    group as long as it can be. *)
Definition timeSubmatch (out : string) : option string :=
  untilSlash <$> afterEquals out.

(** The body of the task started for one peer, on its own slot. *)
Definition pingPeer (prober : Prober) (peer : Peer) : nodeLatencyInfo :=
  let pingResult :=
    {| nl_IP := peer_IP peer; nl_Port := peer_Port peer; nl_Latency := PingTimeout |} in
  match ping_stdout prober (peer_IP peer) with
  | None => pingResult
  | Some out =>
      match timeSubmatch out with
      | None => pingResult
      | Some text =>
          let latencyTime := strconv_ParseFloat prober text in
          if PrimFloat.ltb 0 latencyTime
          then {| nl_IP := peer_IP peer; nl_Port := peer_Port peer;
                  nl_Latency := latencyTime |}
          else pingResult
      end
  end.

#[global] Instance byLatency_decision : RelDecision byLatency.
Proof. intros a b. unfold byLatency. apply _. Defined.

(** The tasks write to distinct slots and are all waited for; then
    [sort.Slice] with [less i j := Latency i < Latency j].  [sort.Slice]
    is not stable: entries of equal latency come out in an order Go does
    not fix, of which [merge_sort] gives one.  What is proved of the
    result rests on its being sorted and a permutation of the slots, and
    so holds for every such order. *)
Definition getPingLatencies (prober : Prober) (peers : Peers) : list nodeLatencyInfo :=
  merge_sort byLatency (pingPeer prober <$> peers).

(** ** The authorization header *)

(** [strings.Contains(s, sep)] for a one-byte [sep]; the statements about
    the header are written with it. *)
Fixpoint Contains (sep : ascii) (s : string) : bool :=
  match s with
  | EmptyString => false
  | String c rest => Ascii.eqb c sep || Contains sep rest
  end.

(** The two errors of [GetAccountIDSecretHashFromHeader], each wrapped
    with the header it was given. *)
Inductive AuthError : Type :=
| errAuthHeaderNotBase65 (authHeader : string)
| errAuthHeaderWrongFormat (authHeader : string).

(** [strings.SplitN(s, sep, 2)] for a one-byte separator: [s] alone when
    it has no separator, else the text before the first separator and all
    of the text after it. *)
Fixpoint SplitN2 (sep : ascii) (s : string) : list string :=
  match s with
  | EmptyString => [EmptyString]
  | String c rest =>
      if Ascii.eqb c sep then [EmptyString; rest]
      else match SplitN2 sep rest with
           | [] => [String c EmptyString]
           | w :: ws => String c w :: ws
           end
  end.

(** [base64_DecodeString] is [base64.StdEncoding.DecodeString], [None]
    for its error. *)
Definition GetAccountIDSecretHashFromHeader
    (base64_DecodeString : string -> option string) (authHeader : string)
  : string * string * option AuthError :=
  match base64_DecodeString authHeader with
  | None => ("", "", Some (errAuthHeaderNotBase65 authHeader))
  | Some payload =>
      let accountIDAndHash := SplitN2 ":" payload in
      if (length accountIDAndHash <=? 1)%nat
      then ("", "", Some (errAuthHeaderWrongFormat authHeader))
      else
        let accountID := nth 0 accountIDAndHash "" in
        let secretHash := nth 1 accountIDAndHash "" in
        (accountID, secretHash, None)
  end.

(** ** Node types (package [types]) *)

(** [NodeType] is a Go [int]; the constants are [1 << iota], with the
    blank identifiers of the block taking their values of [iota]. *)
Definition NodeType : Type := Z.

Definition InternalGateway : NodeType := Z.shiftl 1 0.
Definition ExternalGateway : NodeType := Z.shiftl 1 1.
Definition API : NodeType := Z.shiftl 1 3.
Definition APISocket : NodeType := Z.shiftl 1 4.
Definition CloudAPI : NodeType := Z.shiftl 1 5.
Definition RelayProxy : NodeType := Z.shiftl 1 8.
Definition Websocket : NodeType := Z.shiftl 1 9.
Definition GRPC : NodeType := Z.shiftl 1 10.
Definition Blockchain : NodeType := Z.shiftl 1 11.
Definition SolanaRelay : NodeType := Z.shiftl 1 12.
Definition Gateway : NodeType := Z.lor InternalGateway ExternalGateway.

Definition nodeTypeNames : gmap NodeType string :=
  list_to_map
    [ (InternalGateway, "INTERNAL_GATEWAY");
      (ExternalGateway, "EXTERNAL_GATEWAY");
      (API, "API");
      (APISocket, "API_SOCKET");
      (CloudAPI, "BLOXROUTE_CLOUD_API");
      (Gateway, "GATEWAY");
      (RelayProxy, "RELAY_PROXY");
      (Websocket, "WEBSOCKET");
      (GRPC, "GRPC");
      (Blockchain, "BLOCKCHAIN");
      (SolanaRelay, "SOLANA_RELAY") ].

Definition nodeNameTypes : gmap string NodeType :=
  list_to_map
    [ ("INTERNAL_GATEWAY", InternalGateway);
      ("EXTERNAL_GATEWAY", ExternalGateway);
      ("API", API);
      ("API_SOCKET", APISocket);
      ("BLOXROUTE_CLOUD_API", CloudAPI);
      ("GATEWAY", Gateway);
      ("WEBSOCKET", Websocket);
      ("GRPC", GRPC);
      ("RELAY_PROXY", RelayProxy);
      ("BLOCKCHAIN", Blockchain);
      ("SOLANA_RELAY", SolanaRelay) ].

(** [NodeType.String]. *)
Definition NodeType_String (n : NodeType) : string :=
  match nodeTypeNames !! n with
  | Some s => s
  | None => "UNKNOWN"
  end.

Inductive NodeTypeError : Type :=
| errUnknownNodeValue (value : string).

Definition DeserializeNodeType (b : string) : NodeType * option NodeTypeError :=
  match nodeNameTypes !! b with
  | Some s => (s, None)
  | None => (0, Some (errUnknownNodeValue b))
  end.

(** * Properties *)

(** ** The string functions on small inputs *)

Example Split_commas : Split "," "a,,b" = ["a"; ""; "b"].
Proof. reflexivity. Qed.

Example Split_empty : Split "," "" = [""].
Proof. reflexivity. Qed.

Example Trim_spaces : Trim " " "  1.1.1.1 : 34  " = "1.1.1.1 : 34".
Proof. reflexivity. Qed.

Example Atoi_values :
  Atoi "1809" = Some 1809 /\ Atoi "+34" = Some 34 /\ Atoi "-7" = Some (-7)
  /\ Atoi "abc" = None /\ Atoi "" = None /\ Atoi "1_0" = None
  /\ Atoi "9223372036854775807" = Some MaxInt64
  /\ Atoi "9223372036854775808" = None.
Proof. vm_compute. repeat split; reflexivity. Qed.

(** ** The parser on the rows of the tests *)

(** The rows of [TestDirectRelayConnections_RelayLimit2], [_RelayLimit1]
    and [_IncorrectArgs] that need no DNS. *)
Example parse_two_relays :
  showParse (parsedCmdlineRelays offlineNet "1.1.1.1:34, 2.2.2.2" 2)
  = Ok ([("1.1.1.1", 34); ("2.2.2.2", 1809)], 0).
Proof. vm_compute. reflexivity. Qed.

Example parse_three_relays_limit2 :
  showParse (parsedCmdlineRelays offlineNet "4.4.4.4, 2.2.2.2:22, 1.1.1.1" 2)
  = Ok ([("2.2.2.2", 22); ("4.4.4.4", 1809)], 0).
Proof. vm_compute. reflexivity. Qed.

Example parse_blank :
  showParse (parsedCmdlineRelays offlineNet " " 2) = Err ErrEmptyRelayArgument.
Proof. vm_compute. reflexivity. Qed.

Example parse_colons :
  showParse (parsedCmdlineRelays offlineNet "1:2:3" 2) = Err (ErrRelayFormat "1:2:3").
Proof. vm_compute. reflexivity. Qed.

Example parse_trailing_comma :
  showParse (parsedCmdlineRelays offlineNet "127.0.0.1," 2) = Err ErrEmptyRelayArgument.
Proof. vm_compute. reflexivity. Qed.

Example parse_bad_port :
  showParse (parsedCmdlineRelays offlineNet "1.1.1.1, 2.2.2.2:abc" 2)
  = Err (ErrPortInvalid "abc").
Proof. vm_compute. reflexivity. Qed.

Example parse_bad_host :
  showParse (parsedCmdlineRelays offlineNet "127.0.0.9999" 1)
  = Err (ErrHostInvalid "127.0.0.9999").
Proof. vm_compute. reflexivity. Qed.

Example parse_auto_dup :
  showParse (parsedCmdlineRelays offlineNet "1.1.1.1, 1.1.1.1:2, auto" 2)
  = Ok ([("1.1.1.1", 1809)], 1).
Proof. vm_compute. reflexivity. Qed.

(** ** Scenario S5 *)

Example findRelaysToSwitch_test :
  map_to_list (findRelaysToSwitch test_autoRelay test_fastest)
  = [ ({| rs_ip := "1.1.1.1"; rs_port := 1809 |}, [ probe "4.4.4.4" 3%float ]);
      ({| rs_ip := "2.2.2.2"; rs_port := 1809 |}, test_fastest) ].
Proof. vm_compute. reflexivity. Qed.

Example FindFastestRelays_s5 :
  FindFastestRelays (Ok []) (fun _ => s5_probes) s5_ignored
  = [ switchInstruction
        ({| rs_ip := "1.1.1.1"; rs_port := 1809 |}, [ probe "4.4.4.4" 3%float ]);
      s5_switch_2 ].
Proof. vm_compute. reflexivity. Qed.


(** ** Scenarios S1 to S3 *)

Example scenario_S1 :
  bootstrap offlineNet (Ok s1_peers) s1_latencies clockZero "auto" 1 ∅
  = (None, [connectAuto "1.1.1.1" 1809]).
Proof. vm_compute. reflexivity. Qed.

Example scenario_S2 :
  bootstrap offlineNet (Ok s1_peers) s1_latencies clockZero "auto, auto" 2 ∅
  = (None, [connectAuto "1.1.1.1" 1809; connectAuto "2.2.2.2" 1809]).
Proof. vm_compute. reflexivity. Qed.

Example scenario_S3 :
  bootstrap offlineNet (Err ErrSDNUnavailable) s1_latencies clockZero
    "1.1.1.1:34, 2.2.2.2" 2 ∅
  = (None, [connectStatic "1.1.1.1" 34; connectStatic "2.2.2.2" 1809]).
Proof. vm_compute. reflexivity. Qed.

(** The row "auto relay doesn't overlap with configured relay" of the
    tests: the static relay is skipped by the automatic choice. *)
Example scenario_auto_and_static :
  bootstrap offlineNet (Ok s1_peers) s1_latencies clockZero "auto, 1.1.1.1" 2 ∅
  = (None, [connectStatic "1.1.1.1" 1809; connectAuto "2.2.2.2" 1809]).
Proof. vm_compute. reflexivity. Qed.

(** ** Splitting *)

Lemma Split_nonempty sep s : Split sep s <> [].
Proof.
  destruct s as [|c s]; simpl; [discriminate|].
  destruct (Ascii.eqb c sep); [discriminate|].
  destruct (Split sep s); discriminate.
Qed.

(** Splitting at a separator splits the list of pieces. *)
Lemma Split_app sep s t :
  Split sep (s ++ String sep t) = (Split sep s ++ Split sep t)%list.
Proof.
  induction s as [|c s IH]; simpl.
  - rewrite Ascii.eqb_refl. reflexivity.
  - destruct (Ascii.eqb c sep).
    + rewrite IH. reflexivity.
    + rewrite IH. pose proof (Split_nonempty sep s) as Hne.
      destruct (Split sep s); [congruence | reflexivity].
Qed.

(** ** The parser and its limit *)

Section Parser.
Context (net : Net) (relayLimit : Z).
Hypothesis relayLimit_uint64 : is_uint64 relayLimit.

Lemma within_initial : within relayLimit initial.
Proof using relayLimit_uint64.
  unfold within, relayCount, initial; simpl. rewrite map_size_empty.
  unfold is_uint64 in relayLimit_uint64. lia.
Qed.

Lemma applyToken_count t st :
  relayCount st <= relayCount (applyToken t st) <= relayCount st + 1
  /\ st.2 <= (applyToken t st).2.
Proof.
  destruct st as [m a]. destruct t as [|ip port]; unfold relayCount; simpl.
  - lia.
  - destruct (m !! ip) eqn:Hip; simpl; [lia|].
    rewrite map_size_insert_None by exact Hip. lia.
Qed.

Lemma uint64_within st :
  within relayLimit st -> uint64 (relayCount st) = relayCount st.
Proof using relayLimit_uint64.
  intros [Ha Hc]. unfold uint64. apply Z.mod_small.
  unfold is_uint64 in relayLimit_uint64. unfold relayCount in *. lia.
Qed.

Lemma within_step t st :
  within relayLimit st -> uint64 (relayCount st) <> relayLimit ->
  within relayLimit (applyToken t st).
Proof using relayLimit_uint64.
  intros Hw Hne. rewrite (uint64_within _ Hw) in Hne.
  destruct Hw as [Ha Hc]. pose proof (applyToken_count t st) as [[? ?] ?].
  split; lia.
Qed.

Lemma parseLoop_within relays : forall st st',
  within relayLimit st -> parseLoop net relayLimit relays st = Ok st' ->
  within relayLimit st'.
Proof using relayLimit_uint64.
  induction relays as [|relay rest IH]; intros st st' Hw Hrun; simpl in Hrun.
  - congruence.
  - destruct (uint64 (relayCount st) =? relayLimit) eqn:Hlim.
    + congruence.
    + apply Z.eqb_neq in Hlim.
      destruct (parseToken net relay) as [t|e]; [|discriminate].
      eapply IH; [|exact Hrun]. apply within_step; assumption.
Qed.

(** At the limit the loop returns at once, whatever the tokens are. *)
Lemma parseLoop_at_limit relays st :
  uint64 (relayCount st) = relayLimit ->
  parseLoop net relayLimit relays st = Ok st.
Proof.
  intros Hlim. destruct relays as [|relay rest]; simpl; [reflexivity|].
  apply Z.eqb_eq in Hlim. rewrite Hlim. reflexivity.
Qed.

(** The loop over a list of tokens cut in two. *)
Lemma parseLoop_app pre post : forall st,
  parseLoop net relayLimit (pre ++ post) st
  = match parseLoop net relayLimit pre st with
    | Ok st' => parseLoop net relayLimit post st'
    | Err e => Err e
    end.
Proof.
  induction pre as [|relay pre IH]; intros st; simpl; [reflexivity|].
  destruct (uint64 (relayCount st) =? relayLimit) eqn:Hlim.
  - apply Z.eqb_eq in Hlim. symmetry. apply parseLoop_at_limit, Hlim.
  - destruct (parseToken net relay) as [t|e]; [apply IH | reflexivity].
Qed.

(** A stored relay keeps its port to the end of the loop. *)
Lemma applyToken_keeps t st ip port :
  st.1 !! ip = Some port -> (applyToken t st).1 !! ip = Some port.
Proof.
  destruct st as [m a]. destruct t as [|ip' port']; simpl; [tauto|].
  intros Hip. destruct (m !! ip') eqn:Hip'; simpl; [exact Hip|].
  rewrite lookup_insert_ne; [exact Hip | congruence].
Qed.

Lemma parseLoop_keeps relays ip port : forall st st',
  st.1 !! ip = Some port ->
  parseLoop net relayLimit relays st = Ok st' ->
  st'.1 !! ip = Some port.
Proof.
  induction relays as [|relay rest IH]; intros st st' Hip Hrun; simpl in Hrun.
  - congruence.
  - destruct (uint64 (relayCount st) =? relayLimit); [congruence|].
    destruct (parseToken net relay) as [t|e]; [|discriminate].
    eapply IH; [|exact Hrun]. apply applyToken_keeps, Hip.
Qed.

Lemma parsedCmdlineRelays_loop relayHosts :
  relayHosts <> "" ->
  parsedCmdlineRelays net relayHosts relayLimit
  = parseLoop net relayLimit (Split "," relayHosts) initial.
Proof.
  intros Hne. unfold parsedCmdlineRelays.
  destruct (decide (String.length relayHosts = 0%nat)) as [Hlen|]; [|reflexivity].
  destruct relayHosts; [congruence | discriminate].
Qed.

Lemma parsedCmdlineRelays_ok_nonempty relayHosts st :
  parsedCmdlineRelays net relayHosts relayLimit = Ok st -> relayHosts <> "".
Proof. intros Hrun ->. discriminate. Qed.

(** C5. A successful parse returns at most [relayLimit] relays, distinct
    override IPs and [auto] tokens counted together, and once the tokens
    read so far reach the limit the result is settled: the tokens after
    them are not consumed. *)
Theorem parsedCmdlineRelays_within_limit relayHosts overrideRelays autoCount :
  parsedCmdlineRelays net relayHosts relayLimit = Ok (overrideRelays, autoCount) ->
  (Z.of_nat (size overrideRelays) + autoCount <= relayLimit /\ 0 <= autoCount)
  /\ (forall pre post st,
        Split "," relayHosts = (pre ++ post)%list ->
        parseLoop net relayLimit pre initial = Ok st ->
        relayCount st = relayLimit ->
        (overrideRelays, autoCount) = st).
Proof using relayLimit_uint64.
  intros Hrun.
  pose proof (parsedCmdlineRelays_ok_nonempty _ _ Hrun) as Hne.
  rewrite (parsedCmdlineRelays_loop _ Hne) in Hrun.
  split.
  - pose proof (parseLoop_within _ _ _ within_initial Hrun) as [Ha Hc].
    unfold relayCount in Hc; simpl in *. lia.
  - intros pre post st Htoks Hpre Hfull.
    rewrite Htoks, parseLoop_app, Hpre in Hrun.
    rewrite parseLoop_at_limit in Hrun; [congruence|].
    pose proof (parseLoop_within _ _ _ within_initial Hpre) as Hw.
    rewrite (uint64_within _ Hw). exact Hfull.
Qed.

(** C10. Once the relays counted reach the limit, what follows in the
    specification is not inspected: any text appended after a comma, a
    malformed token included, leaves the parse successful and its result
    the same. *)
Theorem tokens_after_limit_not_inspected relayHosts overrideRelays autoCount rest :
  parsedCmdlineRelays net relayHosts relayLimit = Ok (overrideRelays, autoCount) ->
  Z.of_nat (size overrideRelays) + autoCount = relayLimit ->
  parsedCmdlineRelays net (relayHosts ++ "," ++ rest) relayLimit
  = Ok (overrideRelays, autoCount).
Proof using relayLimit_uint64.
  intros Hrun Hfull.
  pose proof (parsedCmdlineRelays_ok_nonempty _ _ Hrun) as Hne.
  rewrite (parsedCmdlineRelays_loop _ Hne) in Hrun.
  rewrite parsedCmdlineRelays_loop by (destruct relayHosts; [congruence | discriminate]).
  change ("," ++ rest) with (String "," rest).
  rewrite Split_app, parseLoop_app, Hrun.
  apply parseLoop_at_limit.
  pose proof (parseLoop_within _ _ _ within_initial Hrun) as Hw.
  rewrite (uint64_within _ Hw). exact Hfull.
Qed.

(** A token of an IP that is stored already is skipped: the loop goes on
    as if the token were not there. *)
Lemma parseLoop_skip_stored relay post st ip first port :
  st.1 !! ip = Some first ->
  parseToken net relay = Ok (TRelay ip port) ->
  parseLoop net relayLimit (relay :: post) st = parseLoop net relayLimit post st.
Proof.
  intros Hold Htok. simpl.
  destruct (uint64 (relayCount st) =? relayLimit) eqn:Hlim.
  - apply Z.eqb_eq in Hlim. symmetry. apply parseLoop_at_limit, Hlim.
  - rewrite Htok. destruct st as [m0 a0]; simpl in *. rewrite Hold. reflexivity.
Qed.

(** An IP that no token read resolves to is not stored. *)
Lemma parseLoop_absent relays ip : forall st st',
  st.1 !! ip = None ->
  (forall relay port, relay ∈ relays -> parseToken net relay <> Ok (TRelay ip port)) ->
  parseLoop net relayLimit relays st = Ok st' ->
  st'.1 !! ip = None.
Proof.
  induction relays as [|relay rest IH]; intros st st' Hnone Hnot Hrun; simpl in Hrun.
  - congruence.
  - destruct (uint64 (relayCount st) =? relayLimit); [congruence|].
    destruct (parseToken net relay) as [t|e] eqn:Htok; [|discriminate].
    eapply IH; [| |exact Hrun].
    + destruct st as [m a]. destruct t as [|ip' port']; simpl; [exact Hnone|].
      simpl in Hnone. destruct (m !! ip') eqn:Hip'; simpl; [exact Hnone|].
      rewrite lookup_insert_ne; [exact Hnone|].
      intros ->. apply (Hnot relay port'); [apply list_elem_of_here | exact Htok].
    + intros r p Hin. apply Hnot, list_elem_of_further, Hin.
Qed.

(** C7. When two tokens resolve to one IP, the first of them being the
    first token of that IP, the later token is dropped without an error,
    whatever its port: the parse goes as if it were not there.  The only
    port ever stored for the IP is the one of the first token, and it is
    stored whenever that token is read before the limit is reached. *)
Theorem duplicate_ip_first_wins relayHosts pre first mid later post ip port port' :
  relayHosts <> "" ->
  Split "," relayHosts = (pre ++ first :: mid ++ later :: post)%list ->
  (forall relay p, relay ∈ pre -> parseToken net relay <> Ok (TRelay ip p)) ->
  parseToken net first = Ok (TRelay ip port) ->
  parseToken net later = Ok (TRelay ip port') ->
  parsedCmdlineRelays net relayHosts relayLimit
  = parseLoop net relayLimit (pre ++ first :: mid ++ post) initial
  /\ (forall overrideRelays autoCount,
        parsedCmdlineRelays net relayHosts relayLimit = Ok (overrideRelays, autoCount) ->
        (forall stored, overrideRelays !! ip = Some stored -> stored = port)
        /\ (forall st,
              parseLoop net relayLimit pre initial = Ok st ->
              uint64 (relayCount st) <> relayLimit ->
              overrideRelays !! ip = Some port)).
Proof.
  intros Hne Htoks Hnot Hfirst Hlater.
  rewrite (parsedCmdlineRelays_loop _ Hne), Htoks.
  rewrite !parseLoop_app.
  destruct (parseLoop net relayLimit pre initial) as [st|e] eqn:Hpre;
    [|split; [reflexivity | discriminate]].
  assert (Hnew : st.1 !! ip = None).
  { eapply parseLoop_absent; [|exact Hnot|exact Hpre]. apply lookup_empty. }
  simpl. destruct (uint64 (relayCount st) =? relayLimit) eqn:Hlim.
  - split; [reflexivity|]. intros m a [= ->]. split.
    + intros stored Hst. simpl in Hnew. congruence.
    + intros st0 [= <-] Hlim'. apply Z.eqb_eq in Hlim. contradiction.
  - rewrite Hfirst.
    assert (Hst1 : (applyToken (TRelay ip port) st).1 !! ip = Some port).
    { destruct st as [m0 a0]; simpl in *. rewrite Hnew. simpl. apply lookup_insert_eq. }
    rewrite !parseLoop_app.
    destruct (parseLoop net relayLimit mid (applyToken (TRelay ip port) st))
      as [st2|e] eqn:Hmid; [|split; [reflexivity | discriminate]].
    pose proof (parseLoop_keeps _ _ _ _ _ Hst1 Hmid) as Hst2.
    rewrite (parseLoop_skip_stored later post st2 ip port port' Hst2 Hlater).
    split; [reflexivity|].
    intros m a Hrun. apply (parseLoop_keeps _ ip port _ _ Hst2) in Hrun.
    simpl in Hrun. split; [intros stored Hst; congruence | intros; exact Hrun].
Qed.
End Parser.

(** ** Configuration errors *)

Lemma Malformed_parseToken net relay :
  Malformed net relay <-> exists e, parseToken net relay = Err e.
Proof.
  unfold Malformed, parseToken.
  set (token := Trim " " relay). set (pieces := Split ":" token).
  destruct (decide (token = "auto")) as [Hauto|Hauto].
  { split; [intros [? _]; contradiction | intros [e He]; discriminate]. }
  destruct (decide (token = "")) as [Hempty|Hempty].
  { split; [eauto | intros _; split; [exact Hauto | left; exact Hempty]]. }
  destruct (decide (2 < length pieces)%nat) as [Hmany|Hmany].
  { split; [eauto | intros _; split; [exact Hauto | right; left; exact Hmany]]. }
  destruct (decide (length pieces = 2%nat)) as [Htwo|Htwo].
  - destruct (Atoi (nth 1 pieces "")) as [p|] eqn:Hport.
    + destruct (GetIP net (nth 0 pieces "")) as [ip|e] eqn:Hhost.
      * split.
        -- intros [_ [?|[?|[[_ ?]|?]]]]; try contradiction; discriminate.
        -- intros [e He]; discriminate.
      * split; [eauto | intros _; split; [exact Hauto | do 3 right; reflexivity]].
    + split; [eauto|]. intros _. split; [exact Hauto|]. right; right; left. split; [exact Htwo|reflexivity].
  - destruct (GetIP net (nth 0 pieces "")) as [ip|e] eqn:Hhost.
    + split.
      * intros [_ [?|[?|[[? _]|?]]]]; try contradiction; discriminate.
      * intros [e He]; discriminate.
    + split; [eauto | intros _; split; [exact Hauto | do 3 right; reflexivity]].
Qed.

(** The loop fails exactly at a token it reads and cannot parse. *)
Lemma parseLoop_Err net relayLimit relays : forall st e,
  parseLoop net relayLimit relays st = Err e <->
  exists pre relay post st',
    relays = (pre ++ relay :: post)%list
    /\ parseLoop net relayLimit pre st = Ok st'
    /\ uint64 (relayCount st') <> relayLimit
    /\ parseToken net relay = Err e.
Proof.
  induction relays as [|relay rest IH]; intros st e; simpl.
  - split; [discriminate|]. intros (pre & r & post & st' & Heq & _).
    destruct pre; discriminate.
  - destruct (uint64 (relayCount st) =? relayLimit) eqn:Hlim.
    + split; [discriminate|].
      intros (pre & r & post & st' & Heq & Hpre & Hne & Htok).
      apply Z.eqb_eq in Hlim.
      rewrite parseLoop_at_limit in Hpre by exact Hlim. congruence.
    + apply Z.eqb_neq in Hlim.
      destruct (parseToken net relay) as [t|e0] eqn:Htok.
      * rewrite IH. split.
        -- intros (pre & r & post & st' & -> & Hpre & Hne & Hr).
           exists (relay :: pre), r, post, st'. simpl.
           apply Z.eqb_neq in Hlim. rewrite Hlim, Htok. auto.
        -- intros (pre & r & post & st' & Heq & Hpre & Hne & Hr).
           destruct pre as [|r0 pre]; simpl in *.
           ++ congruence.
           ++ injection Heq as <- ->.
              apply Z.eqb_neq in Hlim. rewrite Hlim, Htok in Hpre.
              exists pre, r, post, st'. auto.
      * split.
        -- intros [= <-]. exists [], relay, rest, st. simpl. auto.
        -- intros (pre & r & post & st' & Heq & Hpre & Hne & Hr).
           destruct pre as [|r0 pre]; simpl in *.
           ++ congruence.
           ++ injection Heq as <- ->.
              apply Z.eqb_neq in Hlim. rewrite Hlim, Htok in Hpre. discriminate.
Qed.

(** The parser fails exactly on a configuration error. *)
Lemma parsedCmdlineRelays_Err net relayLimit relayHosts :
  (exists e, parsedCmdlineRelays net relayHosts relayLimit = Err e)
  <-> ConfigError net relayLimit relayHosts.
Proof.
  unfold ConfigError. destruct (decide (relayHosts = "")) as [->|Hne].
  - split; [auto | intros _; eexists; reflexivity].
  - rewrite (parsedCmdlineRelays_loop _ _ _ Hne). split.
    + intros [e He]. right. apply parseLoop_Err in He.
      destruct He as (pre & r & post & st' & Heq & Hpre & Hlim & Htok).
      exists pre, r, post, st'.
      split; [exact Heq|]. split; [exact Hpre|]. split; [exact Hlim|].
      apply Malformed_parseToken. eauto.
    + intros [?|(pre & r & post & st' & Heq & Hpre & Hlim & Hbad)]; [contradiction|].
      apply Malformed_parseToken in Hbad as [e He].
      exists e. apply parseLoop_Err. exists pre, r, post, st'. auto.
Qed.

(** C6, amended. An empty specification, or one whose malformed token
    (empty, more than one [:], a port that is not an integer, a host that
    does not resolve) is read before the limit is reached, makes
    [DirectRelayConnections] return an error at once, with no instruction
    sent and no entry stored. *)
Theorem DirectRelayConnections_config_error net getRelays clock relayHosts relayLimit
    (ignoredRelays : gmap string RelayInfo) :
  ConfigError net relayLimit relayHosts ->
  rejected ignoredRelays
    (DirectRelayConnections net getRelays clock relayHosts relayLimit ignoredRelays).
Proof.
  intros Hbad. apply parsedCmdlineRelays_Err in Hbad as [e He].
  unfold DirectRelayConnections. rewrite He. unfold rejected; simpl. eauto.
Qed.

(** ** The relay controller *)

(** *** The order of binary64 *)

Ltac rank_case :=
  simpl;
  split;
  [ first [ discriminate
          | intros _; split; [discriminate|split; [discriminate|simpl; lia]] ]
  | intros (Hnx & Hny & Hlex);
    first [ reflexivity | congruence | simpl in Hlex; lia ] ].

Lemma SFltb_rank x y :
  SFltb x y = true <-> x <> S754_nan /\ y <> S754_nan /\ lexLt (rank x) (rank y).
Proof.
  unfold SFltb, lexLt.
  destruct x as [sx|sx| |sx mx ex], y as [sy|sy| |sy my ey];
    try (destruct sx); try (destruct sy);
    try (simpl;
         replace (PosDef.Pos.compare_cont Eq mx my) with (Pos.compare mx my)
           by reflexivity;
         destruct (Z.compare_spec ex ey), (Pos.compare_spec mx my));
    rank_case.
Qed.

Lemma SFltb_asym x y : SFltb x y = true -> SFltb y x = false.
Proof.
  intros H. apply SFltb_rank in H as (Hx & Hy & H).
  destruct (SFltb y x) eqn:H'; [|reflexivity].
  apply SFltb_rank in H' as (_ & _ & H'). unfold lexLt in *.
  destruct (rank x) as [a [b c]], (rank y) as [a' [b' c']]. simpl in *. lia.
Qed.

Lemma SFltb_negtrans x y z :
  y <> S754_nan -> SFltb y x = false -> SFltb z y = false -> SFltb z x = false.
Proof.
  intros Hy Hyx Hzy. destruct (SFltb z x) eqn:Hzx; [|reflexivity].
  apply SFltb_rank in Hzx as (Hz & Hx & Hzx).
  assert (H1 : ~ lexLt (rank y) (rank x)).
  { intros H. assert (SFltb y x = true) by (apply SFltb_rank; auto). congruence. }
  assert (H2 : ~ lexLt (rank z) (rank y)).
  { intros H. assert (SFltb z y = true) by (apply SFltb_rank; auto). congruence. }
  unfold lexLt in *.
  destruct (rank x) as [a [b c]], (rank y) as [a' [b' c']], (rank z) as [a'' [b'' c'']].
  simpl in *. lia.
Qed.

Lemma notNaN_spec x : notNaN x <-> Prim2SF x <> S754_nan.
Proof.
  unfold notNaN. rewrite FloatAxioms.eqb_spec. unfold SFeqb.
  destruct (Prim2SF x) as [s|s| |s m e]; simpl.
  - split; [discriminate | reflexivity].
  - destruct s; (split; [discriminate | reflexivity]).
  - split; [discriminate | congruence].
  - replace (PosDef.Pos.compare_cont Eq m m) with (Pos.compare m m) by reflexivity.
    rewrite Z.compare_refl, Pos.compare_refl.
    destruct s; (split; [discriminate | reflexivity]).
Qed.

(** [<] is asymmetric, also on NaN. *)
Lemma ltb_asym (x y : float64) : PrimFloat.ltb x y = true -> PrimFloat.ltb y x = false.
Proof. rewrite !FloatAxioms.ltb_spec. apply SFltb_asym. Qed.

Lemma ltb_irrefl (x : float64) : PrimFloat.ltb x x = false.
Proof.
  destruct (PrimFloat.ltb x x) eqn:H; [|reflexivity].
  pose proof (ltb_asym _ _ H). congruence.
Qed.

(** "Not less" is transitive through a value that is no NaN. *)
Lemma ltb_negtrans (x y z : float64) :
  notNaN y -> PrimFloat.ltb y x = false -> PrimFloat.ltb z y = false ->
  PrimFloat.ltb z x = false.
Proof. rewrite notNaN_spec, !FloatAxioms.ltb_spec. apply SFltb_negtrans. Qed.

Lemma ltb_notNaN (x y : float64) : PrimFloat.ltb x y = true -> notNaN x /\ notNaN y.
Proof.
  rewrite FloatAxioms.ltb_spec, !notNaN_spec. intros H.
  apply SFltb_rank in H as (? & ? & _). auto.
Qed.

#[local] Instance byLatency_total : Total byLatency.
Proof.
  intros a b. unfold byLatency.
  destruct (PrimFloat.ltb (nl_Latency b) (nl_Latency a)) eqn:H; [right | left; reflexivity].
  apply ltb_asym, H.
Qed.

Lemma byLatency_refl a : byLatency a a.
Proof. apply ltb_irrefl. Qed.

(** A list sorted step by step is sorted pair by pair when none of its
    latencies is a NaN. *)
Lemma Sorted_StronglySorted_notNaN l :
  Forall (fun p => notNaN (nl_Latency p)) l ->
  Sorted byLatency l -> StronglySorted byLatency l.
Proof.
  induction l as [|x l IH]; intros Hnan Hs; [constructor|].
  apply Forall_cons in Hnan as [Hx Hnan]. apply Sorted_inv in Hs as [Hs Hhd].
  specialize (IH Hnan Hs). constructor; [exact IH|].
  destruct l as [|y l']; [constructor|].
  apply HdRel_inv in Hhd. apply StronglySorted_inv in IH as [_ Hall].
  apply Forall_cons in Hnan as [Hy _].
  constructor; [exact Hhd|].
  eapply Forall_impl; [exact Hall|]. intros z Hyz. unfold byLatency in *.
  apply (ltb_negtrans _ (nl_Latency y)); assumption.
Qed.

Lemma StronglySorted_sublist {A} (R : relation A) (l k : list A) :
  k `sublist_of` l -> StronglySorted R l -> StronglySorted R k.
Proof.
  induction 1 as [|x k l Hsub IH|x k l Hsub IH]; intros Hs.
  - constructor.
  - apply StronglySorted_cons in Hs as [Hall Hs].
    apply StronglySorted_cons. split; [|auto].
    apply Forall_forall. intros y Hy.
    rewrite Forall_forall in Hall. apply Hall.
    eapply elem_of_sublist; eassumption.
  - apply StronglySorted_cons in Hs as [_ Hs]. auto.
Qed.

(** The connected automatic relays are the entries that are connected and
    not static, as they are stored. *)
Lemma getAutoConnectedRelays_lookup (ignoredRelays : gmap string RelayInfo) ip info :
  getAutoConnectedRelays ignoredRelays !! ip = Some info
  <-> ignoredRelays !! ip = Some info
      /\ ri_IsConnected info = true /\ ri_IsStatic info = false.
Proof.
  unfold getAutoConnectedRelays. revert ip info.
  apply (map_fold_weak_ind
           (fun (r m : gmap string RelayInfo) =>
              forall ip info,
                r !! ip = Some info
                <-> m !! ip = Some info
                    /\ ri_IsConnected info = true /\ ri_IsStatic info = false)).
  - intros ip info. rewrite !lookup_empty. split; [discriminate | intros [? _]; discriminate].
  - intros key value m r Hfresh IH ip info.
    destruct (decide (key = ip)) as [->|Hne].
    + rewrite lookup_insert_eq.
      destruct (ri_IsConnected value && negb (ri_IsStatic value)) eqn:Hkeep.
      * rewrite lookup_insert_eq. apply andb_true_iff in Hkeep as [Hc Hs].
        apply negb_true_iff in Hs. split.
        -- intros [= <-]. auto.
        -- intros [? _]. assumption.
      * rewrite IH, Hfresh. split; [intros [? _]; discriminate|].
        intros [[= <-] [Hc Hs]]. rewrite Hc, Hs in Hkeep. discriminate.
    + rewrite (lookup_insert_ne m) by exact Hne.
      destruct (ri_IsConnected value && negb (ri_IsStatic value)).
      * rewrite lookup_insert_ne by exact Hne. apply IH.
      * apply IH.
Qed.

Lemma probedLatency_cons pingLatency rest ip stored :
  probedLatency (pingLatency :: rest) ip stored
  = probedLatency rest ip
      (if decide (nl_IP pingLatency = ip) then nl_Latency pingLatency else stored).
Proof. reflexivity. Qed.

(** The slice returned keeps the order of the probes. *)
Lemma findFastestAvailableRelays_sublist pingLatencies :
  forall connectedAutoRelays : gmap string RelayInfo,
    (findFastestAvailableRelays pingLatencies connectedAutoRelays).1
      `sublist_of` pingLatencies.
Proof.
  induction pingLatencies as [|p rest IH]; intros c; simpl.
  - constructor.
  - destruct (c !! nl_IP p) as [info|].
    + apply sublist_cons, IH.
    + specialize (IH c).
      destruct (findFastestAvailableRelays rest c) as [f c']; simpl in *.
      apply sublist_skip, IH.
Qed.

(** The map written to holds the same relays, with the latency of their
    last probe. *)
Lemma findFastestAvailableRelays_lookup pingLatencies :
  forall (connectedAutoRelays : gmap string RelayInfo) ip info',
    (findFastestAvailableRelays pingLatencies connectedAutoRelays).2 !! ip = Some info' ->
    exists info,
      connectedAutoRelays !! ip = Some info
      /\ sameRelay info info'
      /\ ri_Latency info' = probedLatency pingLatencies ip (ri_Latency info).
Proof.
  induction pingLatencies as [|p rest IH]; intros c ip info' Hlook; simpl in Hlook.
  - exists info'. split; [exact Hlook|]. split; [repeat split | reflexivity].
  - destruct (c !! nl_IP p) as [info0|] eqn:Hp.
    + apply IH in Hlook as (info1 & Hc & Hsame & Hlat).
      destruct (decide (nl_IP p = ip)) as [Heq|Hne].
      * subst ip. rewrite lookup_insert_eq in Hc. injection Hc as <-.
        exists info0. rewrite probedLatency_cons, decide_True by reflexivity.
        split; [exact Hp|]. split; [exact Hsame | exact Hlat].
      * rewrite lookup_insert_ne in Hc by exact Hne.
        exists info1. rewrite probedLatency_cons, decide_False by exact Hne. auto.
    + specialize (IH c ip info').
      destruct (findFastestAvailableRelays rest c) as [f c']; simpl in Hlook, IH.
      destruct (IH Hlook) as (info & Hc & Hsame & Hlat).
      exists info. split; [exact Hc|]. split; [exact Hsame|].
      rewrite probedLatency_cons.
      destruct (decide (nl_IP p = ip)) as [Heq|Hne]; [congruence | exact Hlat].
Qed.

Lemma prefix_sublist {A} (k l : list A) : k `prefix_of` l -> k `sublist_of` l.
Proof. intros [rest ->]. apply sublist_inserts_r. reflexivity. Qed.

Lemma clearing_prefix latency fastest : clearing latency fastest `prefix_of` fastest.
Proof.
  induction fastest as [|p rest IH]; simpl.
  - apply prefix_nil.
  - destruct (PrimFloat.ltb latency (nl_Latency p + latencyThreshold)%float).
    + apply prefix_nil.
    + apply prefix_cons, IH.
Qed.

Lemma clearing_threshold latency fastest :
  Forall (fun candidate =>
            PrimFloat.ltb latency (nl_Latency candidate + latencyThreshold)%float = false)
         (clearing latency fastest).
Proof.
  induction fastest as [|p rest IH]; simpl.
  - constructor.
  - destruct (PrimFloat.ltb latency (nl_Latency p + latencyThreshold)%float) eqn:Hlt.
    + constructor.
    + constructor; [exact Hlt | exact IH].
Qed.

(** The list stops at the first candidate that does not clear the
    threshold: what is left out starts with one the relay is less than,
    by the test of the code. *)
Lemma clearing_stops latency fastest :
  exists rest,
    fastest = (clearing latency fastest ++ rest)%list
    /\ match rest with
       | [] => True
       | next :: _ =>
           PrimFloat.ltb latency (nl_Latency next + latencyThreshold)%float = true
       end.
Proof.
  induction fastest as [|p rest IH]; simpl.
  - exists []. auto.
  - destruct (PrimFloat.ltb latency (nl_Latency p + latencyThreshold)%float) eqn:Hlt.
    + exists (p :: rest). auto.
    + destruct IH as (rest' & Hrest & Hnext). exists rest'.
      split; [simpl; f_equal; exact Hrest | exact Hnext].
Qed.

(** The inner loop appends the clearing candidates to the list of the
    relay's key. *)
Lemma scanAvailable_clearing relay fastest :
  forall relaysToSwitch : gmap relayToSwitch (list nodeLatencyInfo),
    scanAvailable relay fastest relaysToSwitch
    = match clearing (ri_Latency (ar_relayInfo relay)) fastest with
      | [] => relaysToSwitch
      | candidates =>
          <[switchKey relay :=
              (default [] (relaysToSwitch !! switchKey relay) ++ candidates)%list]>
            relaysToSwitch
      end.
Proof.
  induction fastest as [|p rest IH]; intros acc; simpl; [reflexivity|].
  destruct (PrimFloat.ltb (ri_Latency (ar_relayInfo relay))
              (nl_Latency p + latencyThreshold)%float);
    [reflexivity|].
  rewrite IH. rewrite lookup_insert_eq. simpl.
  destruct (clearing (ri_Latency (ar_relayInfo relay)) rest) as [|q qs]; [reflexivity|].
  rewrite insert_insert_eq. rewrite <- app_assoc. reflexivity.
Qed.

(** Over relays of distinct IPs, the lists of the switch map are the
    lists of clearing candidates of the relays that have some, under
    their keys: the order the relays come in does not matter. *)
Lemma foldl_scanAvailable_lookup fastest slice :
  forall (acc : gmap relayToSwitch (list nodeLatencyInfo)) key candidates,
    NoDup (ar_ip <$> slice) ->
    (forall relay, relay ∈ slice -> acc !! switchKey relay = None) ->
    foldl (fun relaysToSwitch relay => scanAvailable relay fastest relaysToSwitch)
          acc slice !! key = Some candidates
    <-> acc !! key = Some candidates
        \/ exists relay,
             relay ∈ slice /\ key = switchKey relay
             /\ candidates = clearing (ri_Latency (ar_relayInfo relay)) fastest
             /\ candidates <> [].
Proof.
  induction slice as [|r rest IH]; intros acc key candidates Hnd Hfresh; simpl.
  - split; [auto|]. intros [H|(relay & Hin & _)]; [exact H | inversion Hin].
  - apply NoDup_cons in Hnd as [Hr Hnd].
    assert (Hdiff : forall relay, relay ∈ rest -> switchKey r <> switchKey relay).
    { intros relay Hin Heq. apply Hr. apply (f_equal rs_ip) in Heq. simpl in Heq.
      rewrite Heq. apply list_elem_of_fmap_2, Hin. }
    pose proof (Hfresh r (list_elem_of_here _ _)) as Hfr.
    rewrite scanAvailable_clearing, Hfr. simpl.
    rewrite IH; [|exact Hnd|].
    + destruct (clearing (ri_Latency (ar_relayInfo r)) fastest) as [|q qs] eqn:Hcl.
      * split.
        -- intros [Hacc|(relay & Hin & Hrest)]; [left; exact Hacc|].
           right. exists relay. split; [apply list_elem_of_further, Hin | exact Hrest].
        -- intros [Hacc|(relay & Hin & Hkey & Hcands & Hne)]; [left; exact Hacc|].
           apply elem_of_cons in Hin as [->|Hin].
           ++ rewrite Hcl in Hcands. contradiction.
           ++ right. exists relay. auto.
      * split.
        -- intros [Hacc|(relay & Hin & Hrest)].
           ++ destruct (decide (switchKey r = key)) as [<-|Hk].
              ** rewrite lookup_insert_eq in Hacc. injection Hacc as <-.
                 right. exists r. split; [apply list_elem_of_here|].
                 split; [reflexivity|]. split; [symmetry; exact Hcl | discriminate].
              ** rewrite lookup_insert_ne in Hacc by exact Hk. left. exact Hacc.
           ++ right. exists relay. split; [apply list_elem_of_further, Hin | exact Hrest].
        -- intros [Hacc|(relay & Hin & Hkey & Hcands & Hne)].
           ++ left. rewrite lookup_insert_ne; [exact Hacc|]. congruence.
           ++ apply elem_of_cons in Hin as [->|Hin].
              ** left. subst key. rewrite lookup_insert_eq. congruence.
              ** right. exists relay. auto.
    + intros relay Hin.
      destruct (clearing (ri_Latency (ar_relayInfo r)) fastest).
      * apply Hfresh, list_elem_of_further, Hin.
      * rewrite lookup_insert_ne by (apply Hdiff, Hin).
        apply Hfresh, list_elem_of_further, Hin.
Qed.

Lemma convertMapToSortedSlice_elem (connectedAutoRelays : gmap string RelayInfo) relay :
  relay ∈ convertMapToSortedSlice connectedAutoRelays
  <-> connectedAutoRelays !! ar_ip relay = Some (ar_relayInfo relay).
Proof.
  unfold convertMapToSortedSlice. rewrite merge_sort_Permutation.
  rewrite list_elem_of_fmap. split.
  - intros ([k v] & -> & Hin). simpl. apply elem_of_map_to_list, Hin.
  - intros Hlook. exists (ar_ip relay, ar_relayInfo relay). split.
    + destruct relay; reflexivity.
    + apply elem_of_map_to_list, Hlook.
Qed.

Lemma convertMapToSortedSlice_NoDup (connectedAutoRelays : gmap string RelayInfo) :
  NoDup (ar_ip <$> convertMapToSortedSlice connectedAutoRelays).
Proof.
  unfold convertMapToSortedSlice. rewrite merge_sort_Permutation.
  rewrite <- list_fmap_compose.
  apply (NoDup_fst_map_to_list connectedAutoRelays).
Qed.

(** The switch map has, for each relay of the map given that some
    candidate clears the threshold against, the list of those candidates,
    and nothing else: it does not depend on the order Go walks the map of
    relays in, nor on how [sort.Slice] orders equal latencies. *)
Lemma findRelaysToSwitch_lookup (connectedAutoRelays : gmap string RelayInfo)
    fastest key candidates :
  findRelaysToSwitch connectedAutoRelays fastest !! key = Some candidates
  <-> exists info,
        connectedAutoRelays !! rs_ip key = Some info
        /\ rs_port key = ri_Port info
        /\ candidates = clearing (ri_Latency info) fastest
        /\ candidates <> [].
Proof.
  unfold findRelaysToSwitch.
  rewrite foldl_scanAvailable_lookup;
    [|apply convertMapToSortedSlice_NoDup | intros relay _; apply lookup_empty].
  rewrite lookup_empty. split.
  - intros [Hempty|(relay & Hin & -> & Hcands & Hne)]; [discriminate|].
    apply convertMapToSortedSlice_elem in Hin.
    exists (ar_relayInfo relay). simpl. auto.
  - intros (info & Hlook & Hport & Hcands & Hne). right.
    exists {| ar_ip := rs_ip key; ar_relayInfo := info |}.
    split; [apply convertMapToSortedSlice_elem; exact Hlook|].
    split; [|auto]. destruct key as [ip port]; simpl in *. unfold switchKey; simpl.
    congruence.
Qed.

(** What an instruction sent by [FindFastestRelays] is made from. *)
Lemma FindFastestRelays_elem getRelays getPingLatencies
    (ignoredRelays : gmap string RelayInfo) instruction :
  instruction ∈ FindFastestRelays getRelays getPingLatencies ignoredRelays ->
  exists relays info,
    getRelays = Ok relays
    /\ in_Type instruction = Switch
    /\ ignoredRelays !! in_IP instruction = Some info
    /\ ri_IsConnected info = true /\ ri_IsStatic info = false
    /\ in_Port instruction = ri_Port info
    /\ in_RelaysToSwitch instruction <> []
    /\ in_RelaysToSwitch instruction
       = clearing
           (probedLatency (getPingLatencies relays) (in_IP instruction) (ri_Latency info))
           (findFastestAvailableRelays (getPingLatencies relays)
              (getAutoConnectedRelays ignoredRelays)).1.
Proof.
  unfold FindFastestRelays. destruct getRelays as [relays|e]; [|intros H; inversion H].
  destruct (decide (length (getPingLatencies relays) = 0%nat)); [intros H; inversion H|].
  pose proof (findFastestAvailableRelays_lookup (getPingLatencies relays)
                (getAutoConnectedRelays ignoredRelays)) as Hmap.
  destruct (findFastestAvailableRelays (getPingLatencies relays)
              (getAutoConnectedRelays ignoredRelays)) as [fastest connected] eqn:Hff.
  simpl in Hmap. intros Hin.
  apply list_elem_of_fmap in Hin as ([key candidates] & -> & Hin).
  apply elem_of_map_to_list in Hin.
  apply findRelaysToSwitch_lookup in Hin as (info' & Hlook & Hport & Hcands & Hne).
  apply Hmap in Hlook as (info & Hauto & Hsame & Hlat).
  apply getAutoConnectedRelays_lookup in Hauto as (Hig & Hconn & Hstatic).
  destruct Hsame as (_ & Hp & _ & _).
  exists relays, info. simpl.
  split; [reflexivity|]. split; [reflexivity|]. split; [exact Hig|].
  split; [exact Hconn|]. split; [exact Hstatic|]. split; [congruence|].
  split; [exact Hne|]. rewrite <- Hlat, Hff. exact Hcands.
Qed.

(** C3, as the code has it. A [Switch] is sent for a connected automatic
    relay only with candidates that each fail the test of the code, [R <
    C + 10] in binary64 with the sum rounded, the latency [R] of the relay
    being the one just probed; the list sent is the front of the
    available candidates in the order of the probes, so ascending when
    the probes are.  That the difference [R - C] is 10 at least does not
    follow: see [switch_short_of_threshold]. *)
Theorem FindFastestRelays_switch_threshold relays getPingLatencies
    (ignoredRelays : gmap string RelayInfo) instruction :
  StronglySorted byLatency (getPingLatencies relays) ->
  instruction ∈ FindFastestRelays (Ok relays) getPingLatencies ignoredRelays ->
  in_Type instruction = Switch
  /\ exists info,
       ignoredRelays !! in_IP instruction = Some info
       /\ ri_IsConnected info = true /\ ri_IsStatic info = false
       /\ in_Port instruction = ri_Port info
       /\ in_RelaysToSwitch instruction <> []
       /\ Forall
            (fun candidate =>
               PrimFloat.ltb
                 (probedLatency (getPingLatencies relays) (in_IP instruction)
                    (ri_Latency info))
                 (nl_Latency candidate + latencyThreshold)%float = false)
            (in_RelaysToSwitch instruction)
       /\ in_RelaysToSwitch instruction
            `prefix_of` (findFastestAvailableRelays (getPingLatencies relays)
                           (getAutoConnectedRelays ignoredRelays)).1
       /\ in_RelaysToSwitch instruction `sublist_of` getPingLatencies relays
       /\ StronglySorted byLatency (in_RelaysToSwitch instruction).
Proof.
  intros Hsorted Hin.
  apply FindFastestRelays_elem in Hin
    as (relays' & info & [= <-] & Htype & Hig & Hconn & Hstatic & Hport & Hne & Hcands).
  split; [exact Htype|]. exists info.
  assert (Hsub : in_RelaysToSwitch instruction `sublist_of` getPingLatencies relays).
  { rewrite Hcands. etransitivity.
    - apply prefix_sublist, clearing_prefix.
    - apply findFastestAvailableRelays_sublist. }
  split; [exact Hig|]. split; [exact Hconn|]. split; [exact Hstatic|].
  split; [exact Hport|]. split; [exact Hne|].
  split; [rewrite Hcands at 1; apply clearing_threshold|].
  split; [rewrite Hcands at 1; apply clearing_prefix|].
  split; [exact Hsub|].
  eapply StronglySorted_sublist; [exact Hsub | exact Hsorted].
Qed.

(** C4. The relays a [Switch] can be sent for are collected from the
    entries that are connected and not static, and no instruction sent
    names, as the relay to leave, one whose stored entry is static. *)
Theorem FindFastestRelays_never_switches_static getRelays getPingLatencies
    (ignoredRelays : gmap string RelayInfo) :
  (forall ip info,
     getAutoConnectedRelays ignoredRelays !! ip = Some info
     <-> ignoredRelays !! ip = Some info
         /\ ri_IsConnected info = true /\ ri_IsStatic info = false)
  /\ (forall instruction,
        instruction ∈ FindFastestRelays getRelays getPingLatencies ignoredRelays ->
        in_Type instruction = Switch
        /\ exists info,
             ignoredRelays !! in_IP instruction = Some info
             /\ ri_IsConnected info = true /\ ri_IsStatic info = false)
  /\ (forall ip info instruction,
        ignoredRelays !! ip = Some info ->
        ri_IsStatic info = true ->
        instruction ∈ FindFastestRelays getRelays getPingLatencies ignoredRelays ->
        in_IP instruction <> ip).
Proof.
  split; [intros ip info; apply getAutoConnectedRelays_lookup|].
  split.
  - intros instruction Hin.
    apply FindFastestRelays_elem in Hin
      as (relays & info & _ & Htype & Hig & Hconn & Hstatic & _).
    split; [exact Htype|]. exists info. auto.
  - intros ip info instruction Hig Hstatic Hin Heq.
    apply FindFastestRelays_elem in Hin
      as (relays & info' & _ & _ & Hig' & _ & Hstatic' & _).
    rewrite Heq, Hig in Hig'. injection Hig' as <-. congruence.
Qed.

(** The targets are another matter: they come from the probes of every
    relay that is not a connected automatic one, so a static relay that the
    directory lists can be offered as a target. *)
Example static_relay_offered_as_target :
  FindFastestRelays (Ok [])
    (fun _ => [ probe "9.9.9.9" 1%float; probe "1.1.1.1" 50%float ])
    (<["1.1.1.1" := autoInfo 1809 0%float]> (<["9.9.9.9" := staticInfo 0 1809]> ∅))
  = [ switchInstruction
        ({| rs_ip := "1.1.1.1"; rs_port := 1809 |}, [ probe "9.9.9.9" 1%float ]) ].
Proof. vm_compute. reflexivity. Qed.

(** ** The cache-backed fetcher *)

(** [path.Join] on directories that are not clean, as the documentation
    of [path] gives them. *)
Example path_Join_cleans :
  path_Join "data/" "f" = "data/f"
  /\ path_Join "." "f" = "f"
  /\ path_Join "" "f" = "f"
  /\ path_Join "" "" = ""
  /\ path_Join "a/b" "../c" = "a/c"
  /\ path_Join "/" "f" = "/f"
  /\ path_Join "a//b/./" "f" = "a/b/f"
  /\ path_Join "../x" "f" = "../x/f".
Proof. vm_compute. repeat split. Qed.

(** Rows of the table of [TestClean] in package [path]. *)
Example path_Clean_rows :
  path_Clean "" = "."
  /\ path_Clean "abc//def//ghi" = "abc/def/ghi"
  /\ path_Clean "abc/def/../../.." = ".."
  /\ path_Clean "/abc/def/../../.." = "/"
  /\ path_Clean "abc/./../def" = "def"
  /\ path_Clean "../../abc" = "../../abc"
  /\ path_Clean "/../abc" = "/abc"
  /\ path_Clean "abc/../../././../def" = "../../def"
  /\ path_Clean "///" = "/"
  /\ path_Clean "abc/" = "abc".
Proof. vm_compute. repeat split. Qed.

Lemma http_unavailable errorDetails body :
  http errorDetails (Response StatusServiceUnavailable body) = Err ErrSDNUnavailable.
Proof. reflexivity. Qed.

(** C1. On a 503 the call returns the bytes of the cache file, as they
    are, and no error when the file is there; when it cannot be read the
    call returns an error.  The disk is left as it was. *)
Theorem httpWithCache_unavailable errorDetails fs dataDir fileName body :
  httpWithCache errorDetails fs dataDir (Response StatusServiceUnavailable body) fileName
  = (match fs_files fs !! path_Join dataDir fileName with
     | Some bytes => Ok bytes
     | None => Err (ErrCacheLoad ErrSDNUnavailable fileName (ErrOS "open"))
     end, fs).
Proof.
  unfold httpWithCache. rewrite http_unavailable. simpl.
  unfold LoadCacheFile. destruct (fs_files fs !! path_Join dataDir fileName); reflexivity.
Qed.

Example httpWithCache_unavailable_cached :
  httpWithCache (fun _ => None)
    (diskOf (<["potentialrelays.json" := "[1,2,3]"]> ∅)) ""
    (Response 503 (Ok "down")) potentialRelaysFileName
  = (Ok "[1,2,3]", diskOf (<["potentialrelays.json" := "[1,2,3]"]> ∅)).
Proof. apply httpWithCache_unavailable. Qed.

Example httpWithCache_unavailable_no_cache :
  (httpWithCache (fun _ => None) (diskOf ∅) "" (Response 503 (Ok "down"))
     potentialRelaysFileName).1
  = Err (ErrCacheLoad ErrSDNUnavailable "potentialrelays.json" (ErrOS "open")).
Proof. reflexivity. Qed.

(** What a 200 leaves on a disk that takes the write: the body, followed
    by what the old file held past the length of the body. *)
Lemma httpWithCache_ok_disk errorDetails fs dataDir fileName body :
  fs_canWrite fs (path_Join dataDir fileName) = true ->
  let '(result, fs') :=
    httpWithCache errorDetails fs dataDir (Response 200 (Ok body)) fileName in
  result = Ok body
  /\ fs_files fs' !! path_Join dataDir fileName
     = Some (writeFromStart
               (default "" (fs_files fs !! path_Join dataDir fileName)) body).
Proof.
  intros Hw. unfold httpWithCache, UpdateCacheFile; simpl.
  unfold fs_canWrite in Hw.
  destruct (fs_update fs (path_Join dataDir fileName)); try discriminate. simpl.
  split; [reflexivity | apply lookup_insert_eq].
Qed.

Lemma dropBytes_all n s : (String.length s <= n)%nat -> dropBytes n s = "".
Proof.
  revert n. induction s as [|c s IH]; intros n Hlen; destruct n; simpl in *;
    try reflexivity; try lia.
  apply IH. lia.
Qed.

Lemma append_empty_r s : s ++ "" = s.
Proof.
  induction s as [|c s IH]; [reflexivity|].
  change (String c (s ++ "") = String c s). f_equal. exact IH.
Qed.

(** A new file, or an old one no longer than the body, ends up equal to
    the body. *)
Lemma httpWithCache_ok_disk_fresh errorDetails fs dataDir fileName body :
  fs_canWrite fs (path_Join dataDir fileName) = true ->
  (String.length (default "" (fs_files fs !! path_Join dataDir fileName))
   <= String.length body)%nat ->
  fs_files (httpWithCache errorDetails fs dataDir (Response 200 (Ok body)) fileName).2
    !! path_Join dataDir fileName
  = Some body.
Proof.
  intros Hw Hlen.
  pose proof (httpWithCache_ok_disk errorDetails fs dataDir fileName body Hw) as H.
  destruct (httpWithCache errorDetails fs dataDir (Response 200 (Ok body)) fileName)
    as [result fs']. destruct H as [_ H]. simpl.
  rewrite H. unfold writeFromStart.
  rewrite dropBytes_all by exact Hlen. rewrite append_empty_r. reflexivity.
Qed.

(** C2, on the input where it fails. The cache holds seven bytes and the
    directory answers 200 with three: the call returns the three bytes and
    the file keeps the last four of the old ones after them. *)
Theorem httpWithCache_shorter_body_not_truncated :
  let '(result, fs') :=
    httpWithCache (fun _ => None)
      (diskOf (<["potentialrelays.json" := "[1,2,3]"]> ∅)) ""
      (Response 200 (Ok "[7]")) potentialRelaysFileName in
  result = Ok "[7]"
  /\ fs_files fs' !! "potentialrelays.json" = Some "[7]2,3]"
  /\ LoadCacheFile fs' "" potentialRelaysFileName <> Ok "[7]".
Proof. vm_compute. split; [reflexivity|]. split; [reflexivity | discriminate]. Qed.

(** ** Blockchain networks *)

Lemma any_is_int_0_true v : any_is_int_0 v = true <-> v = any_int 0.
Proof.
  destruct v as [|n| | | |]; simpl; try (split; [discriminate | discriminate]).
  rewrite Z.eqb_eq. split; [intros ->; reflexivity | intros [= ->]; reflexivity].
Qed.

Lemma any_is_int_0_false v : any_is_int_0 v = false <-> v <> any_int 0.
Proof.
  rewrite <- any_is_int_0_true. destruct (any_is_int_0 v); split; congruence.
Qed.

(** After a successful [FetchBlockchainNetwork] the network of the session
    is stored, with the decoded fields and the sentinel in place of a
    terminal total difficulty that is the [int] 0 under the Ethereum
    protocol. *)
Lemma FetchBlockchainNetwork_sentinel json s fs reply s' fs' :
  FetchBlockchainNetwork json s fs reply = (None, s', fs') ->
  exists resp decoded stored,
    json_BlockchainNetwork json resp
      (default zeroBlockchainNetwork (networks s !! networkNum s)) = (decoded, true)
    /\ networks s' !! networkNum s = Some stored
    /\ bn_Protocol stored = bn_Protocol decoded
    /\ (bn_Protocol decoded = EthereumProtocol ->
        TerminalTotalDifficulty (bn_DefaultAttributes decoded) = any_int 0 ->
        TerminalTotalDifficulty (bn_DefaultAttributes stored) = any_bigInt MaxInt)
    /\ (bn_Protocol stored = EthereumProtocol ->
        TerminalTotalDifficulty (bn_DefaultAttributes stored) <> any_int 0).
Proof.
  unfold FetchBlockchainNetwork.
  destruct (httpWithCache _ fs (dataDir s) reply blockchainNetworkCacheFileName)
    as [[resp|e] fs1]; [|discriminate].
  destruct (json_BlockchainNetwork json resp _) as [decoded ok] eqn:Hdec.
  destruct ok; [|discriminate].
  intros [= <- <-]. exists resp, decoded. simpl.
  eexists. split; [exact Hdec|]. split; [apply lookup_insert_eq|].
  destruct (bool_decide (bn_Protocol decoded = EthereumProtocol)) eqn:Hp;
    destruct (any_is_int_0 (TerminalTotalDifficulty (bn_DefaultAttributes decoded)))
      eqn:Hz; simpl.
  - split; [reflexivity|]. split; [reflexivity|]. intros _. discriminate.
  - apply any_is_int_0_false in Hz.
    split; [reflexivity|]. split; [congruence | intros _; exact Hz].
  - apply bool_decide_eq_false in Hp. split; [reflexivity|]. split; [congruence | congruence].
  - apply bool_decide_eq_false in Hp. split; [reflexivity|]. split; [congruence | congruence].
Qed.

Example FetchBlockchainNetwork_mainnet :
  networks
    (FetchBlockchainNetwork fixedJson emptySession (diskOf ∅) (Response 200 (Ok "{}"))).1.2
    !! 5
  = Some (set_TerminalTotalDifficulty mainnet (any_bigInt MaxInt)).
Proof. vm_compute. reflexivity. Qed.

Lemma foldl_insert_network_last (post : list BlockchainNetwork) network :
  forall m : gmap Z BlockchainNetwork,
    m !! bn_NetworkNum network = Some network ->
    (forall later, later ∈ post -> bn_NetworkNum later <> bn_NetworkNum network) ->
    foldl (fun m n => <[bn_NetworkNum n := n]> m) m post !! bn_NetworkNum network
    = Some network.
Proof.
  induction post as [|n post IH]; intros m Hm Hlast; simpl; [exact Hm|].
  apply IH.
  - rewrite lookup_insert_ne; [exact Hm|]. apply Hlast, list_elem_of_here.
  - intros later Hin. apply Hlast, list_elem_of_further, Hin.
Qed.

(** [getBlockchainNetworks] stores the last network of each number as it
    was decoded. *)
Lemma getBlockchainNetworks_stores_decoded json s fs reply s' fs' :
  getBlockchainNetworks json s fs reply = (None, s', fs') ->
  exists resp nets,
    json_BlockchainNetworks json resp = Some nets
    /\ forall pre network post,
         nets = (pre ++ network :: post)%list ->
         (forall later, later ∈ post -> bn_NetworkNum later <> bn_NetworkNum network) ->
         networks s' !! bn_NetworkNum network = Some network.
Proof.
  unfold getBlockchainNetworks.
  destruct (httpWithCache _ fs (dataDir s) reply blockchainNetworksCacheFileName)
    as [[resp|e] fs1]; [|discriminate].
  destruct (json_BlockchainNetworks json resp) as [nets|] eqn:Hdec; [|discriminate].
  intros [= <- <-]. exists resp, nets. split; [exact Hdec|].
  intros pre network post -> Hlast. simpl.
  rewrite foldl_app. simpl.
  apply foldl_insert_network_last; [apply lookup_insert_eq | exact Hlast].
Qed.

(** C8, on the input where it fails. The directory lists one network, of
    the Ethereum protocol and with a terminal total difficulty of 0:
    [FetchAllBlockchainNetworks] stores it with the 0, where
    [FetchBlockchainNetwork] stores the sentinel. *)
Theorem FetchAllBlockchainNetworks_keeps_zero_difficulty :
  let '(err, s', _) :=
    FetchAllBlockchainNetworks fixedJson emptySession (diskOf ∅)
      (Response 200 (Ok "[{}]")) in
  err = None
  /\ networks s' !! 5 = Some mainnet
  /\ bn_Protocol mainnet = EthereumProtocol
  /\ TerminalTotalDifficulty (bn_DefaultAttributes mainnet) = any_int 0
  /\ any_int 0 <> any_bigInt MaxInt.
Proof. vm_compute. repeat split; discriminate. Qed.

(** ** The account model *)

Lemma mergeLimit_spec dflt loaded :
  mergeLimit dflt loaded = if (loaded =? 0)%N then dflt else loaded.
Proof. reflexivity. Qed.

(** C9. Whatever the directory answers, the account stored by
    [getAccountModel] has a relay limit and a limit of allowed nodes of 1
    at least: a limit that is 0 after the merge with the default account
    is stored as 1, respectively 6, any other as it is; and the merge
    takes the default limit exactly where the loaded one is 0. *)
Theorem getAccountModel_limits json defaultElite s fs reply :
  let merged :=
    (getAccountModelWithEndpoint json defaultElite s fs reply EndpointAccount).1.1 in
  let relayLimit := Limit (MsgQuota (acc_RelayLimit merged)) in
  let maxNodes := Limit (MsgQuota (acc_MaxAllowedNodes merged)) in
  (exists stored,
     accountModel (getAccountModel json defaultElite s fs reply).1.2 = Some stored
     /\ (1 <= Limit (MsgQuota (acc_RelayLimit stored)))%N
     /\ (1 <= Limit (MsgQuota (acc_MaxAllowedNodes stored)))%N
     /\ Limit (MsgQuota (acc_RelayLimit stored))
        = (if (relayLimit =? 0)%N then 1 else relayLimit)%N
     /\ Limit (MsgQuota (acc_MaxAllowedNodes stored))
        = (if (maxNodes =? 0)%N then 6 else maxNodes)%N)
  /\ (forall loaded,
        let filled := (fillInAccountDefaults defaultElite loaded).1 in
        Limit (MsgQuota (acc_RelayLimit filled))
        = (if (Limit (MsgQuota (acc_RelayLimit loaded)) =? 0)%N
           then Limit (MsgQuota (acc_RelayLimit defaultElite))
           else Limit (MsgQuota (acc_RelayLimit loaded)))
        /\ Limit (MsgQuota (acc_MaxAllowedNodes filled))
           = (if (Limit (MsgQuota (acc_MaxAllowedNodes loaded)) =? 0)%N
              then Limit (MsgQuota (acc_MaxAllowedNodes defaultElite))
              else Limit (MsgQuota (acc_MaxAllowedNodes loaded)))).
Proof.
  split; [|intros loaded; split; reflexivity].
  unfold getAccountModel.
  destruct (getAccountModelWithEndpoint json defaultElite s fs reply EndpointAccount)
    as [[merged err] fs']. simpl.
  eexists. split; [reflexivity|].
  destruct (Limit (MsgQuota (acc_RelayLimit merged)) =? 0)%N eqn:Hr;
    destruct (Limit (MsgQuota (acc_MaxAllowedNodes merged)) =? 0)%N eqn:Hm;
    simpl; rewrite ?Hr, ?Hm; simpl;
    try apply N.eqb_neq in Hr; try apply N.eqb_neq in Hm;
    repeat split; lia.
Qed.

(** [TestSDNHTTP_InitGateway]: a loaded relay limit of 0 takes the
    default 2; a limit of allowed nodes that no one sets becomes 6. *)
Example getAccountModel_InitGateway :
  accountModel
    (getAccountModel fixedJson eliteAccount emptySession (diskOf ∅)
       (Response 200 (Ok "{}"))).1.2
  = Some {| acc_AccountID := "e64yrte6547"; acc_TierName := "";
            acc_RelayLimit := {| ExpireDate := ""; MsgQuota := {| Limit := 2%N |} |};
            acc_MaxAllowedNodes := {| ExpireDate := ""; MsgQuota := {| Limit := 6%N |} |} |}.
Proof. vm_compute. reflexivity. Qed.

(** With the directory down and no cache, the load fails and the account
    stored is the empty one with the limits 1 and 6. *)
Example getAccountModel_unavailable :
  let '(err, s', _) :=
    getAccountModel fixedJson eliteAccount emptySession (diskOf ∅)
      (Response 503 (Ok "down")) in
  is_Some err
  /\ accountModel s'
     = Some (set_MaxAllowedNodes (set_RelayLimit zeroAccount (set_Limit zeroQuota 1%N))
               (set_Limit zeroQuota 6%N)).
Proof. vm_compute. split; [eauto | reflexivity]. Qed.

(** ** The theorems at concrete inputs *)

Lemma is_uint64_small n : 0 <= n < 100 -> is_uint64 n.
Proof. unfold is_uint64. intros H. split; [lia|]. apply Z.lt_trans with 100; [lia|reflexivity]. Qed.

(** ["auto, 1.1.1.1, 2.2.2.2"] under a limit of 2: one [auto], one relay. *)
Lemma parsedCmdlineRelays_within_limit_witness :
  is_uint64 2
  /\ parsedCmdlineRelays offlineNet "auto, 1.1.1.1, 2.2.2.2" 2 = Ok (oneRelay, 1)
  /\ Z.of_nat (size oneRelay) + 1 <= 2.
Proof.
  assert (Hl : is_uint64 2) by (apply is_uint64_small; lia).
  assert (Hrun : parsedCmdlineRelays offlineNet "auto, 1.1.1.1, 2.2.2.2" 2
                 = Ok (oneRelay, 1)) by (vm_compute; reflexivity).
  split; [exact Hl|]. split; [exact Hrun|].
  exact (proj1 (proj1 (parsedCmdlineRelays_within_limit offlineNet 2 Hl
                         "auto, 1.1.1.1, 2.2.2.2" oneRelay 1 Hrun))).
Defined.

(** ["1.1.1.1"] fills a limit of 1; a token with a port that is no integer
    after it changes nothing. *)
Lemma tokens_after_limit_not_inspected_witness :
  is_uint64 1
  /\ parsedCmdlineRelays offlineNet "1.1.1.1" 1 = Ok (oneRelay, 0)
  /\ Z.of_nat (size oneRelay) + 0 = 1
  /\ parsedCmdlineRelays offlineNet ("1.1.1.1" ++ "," ++ " 2.2.2.2:abc") 1
     = Ok (oneRelay, 0).
Proof.
  assert (Hl : is_uint64 1) by (apply is_uint64_small; lia).
  assert (Hrun : parsedCmdlineRelays offlineNet "1.1.1.1" 1 = Ok (oneRelay, 0))
    by (vm_compute; reflexivity).
  assert (Hfull : Z.of_nat (size oneRelay) + 0 = 1) by (vm_compute; reflexivity).
  split; [exact Hl|]. split; [exact Hrun|]. split; [exact Hfull|].
  exact (tokens_after_limit_not_inspected offlineNet 1 Hl "1.1.1.1" oneRelay 0
           " 2.2.2.2:abc" Hrun Hfull).
Defined.

(** The row "duplicate relay ips #2" of the tests, at its second IP. *)
Lemma duplicate_ip_first_wins_witness :
  parsedCmdlineRelays offlineNet "1.1.1.1:1, 1.1.1.1:2, 2.2.2.2:3, 2.2.2.2:4" 2
  = parseLoop offlineNet 2 ["1.1.1.1:1"; " 1.1.1.1:2"; " 2.2.2.2:3"] initial.
Proof.
  refine (proj1 (duplicate_ip_first_wins offlineNet 2
                   "1.1.1.1:1, 1.1.1.1:2, 2.2.2.2:3, 2.2.2.2:4"
                   ["1.1.1.1:1"; " 1.1.1.1:2"] " 2.2.2.2:3" [] " 2.2.2.2:4" []
                   "2.2.2.2" 3 4 _ _ _ _ _)).
  - discriminate.
  - reflexivity.
  - intros relay p Hin.
    apply elem_of_cons in Hin as [->|Hin]; [vm_compute; discriminate|].
    apply elem_of_cons in Hin as [->|Hin]; [vm_compute; discriminate|].
    inversion Hin.
  - vm_compute. reflexivity.
  - vm_compute. reflexivity.
Defined.

(** ["1.1.1.1, 2.2.2.2:abc"] under a limit of 2: the second token is read
    and its port is no integer. *)
Lemma DirectRelayConnections_config_error_witness :
  ConfigError offlineNet 2 "1.1.1.1, 2.2.2.2:abc"
  /\ rejected s5_ignored
       (DirectRelayConnections offlineNet (Ok []) clockZero "1.1.1.1, 2.2.2.2:abc" 2
          s5_ignored).
Proof.
  assert (Hbad : ConfigError offlineNet 2 "1.1.1.1, 2.2.2.2:abc").
  { right. exists ["1.1.1.1"], " 2.2.2.2:abc", [], (oneRelay, 0).
    split; [reflexivity|]. split; [vm_compute; reflexivity|].
    split; [vm_compute; discriminate|].
    split; [vm_compute; discriminate|].
    right. right. left. split; vm_compute; reflexivity. }
  split; [exact Hbad|].
  exact (DirectRelayConnections_config_error offlineNet (Ok []) clockZero
           "1.1.1.1, 2.2.2.2:abc" 2 s5_ignored Hbad).
Defined.

(** The same specification under a limit of 1: the malformed token is
    never read, the call succeeds, and the first relay is stored and sent. *)
Example DirectRelayConnections_limit1 :
  let o := DirectRelayConnections offlineNet (Ok []) clockZero
             "1.1.1.1, 2.2.2.2:abc" 1 ∅ in
  do_err o = None
  /\ do_sent o = [connectStatic "1.1.1.1" 1809]
  /\ do_ignored o !! "1.1.1.1" = Some (staticInfo 0 1809).
Proof. vm_compute. repeat split; reflexivity. Qed.

(** C6 as it is stated fails: a malformed token in the specification does
    not always make [DirectRelayConnections] return an error. *)
Lemma malformed_token_after_limit_accepted :
  ~ (forall net getRelays clock relayHosts relayLimit
            (ignoredRelays : gmap string RelayInfo) relay,
       is_uint64 relayLimit ->
       relay ∈ Split "," relayHosts ->
       Malformed net relay ->
       rejected ignoredRelays
         (DirectRelayConnections net getRelays clock relayHosts relayLimit ignoredRelays)).
Proof.
  intros Hclaim.
  destruct (Hclaim offlineNet (Ok []) clockZero "1.1.1.1, 2.2.2.2:abc" 1 ∅
              " 2.2.2.2:abc") as [[e He] _].
  - apply is_uint64_small; lia.
  - right. left.
  - split; [vm_compute; discriminate|].
    right. right. left. split; vm_compute; reflexivity.
  - vm_compute in He. discriminate.
Qed.

Lemma byLatency_s5_probes : StronglySorted byLatency s5_probes.
Proof. repeat constructor. Qed.

(** Scenario S5, at the relay 2.2.2.2. *)
Lemma FindFastestRelays_switch_threshold_witness :
  StronglySorted byLatency s5_probes
  /\ s5_switch_2 ∈ FindFastestRelays (Ok []) (fun _ => s5_probes) s5_ignored
  /\ in_RelaysToSwitch s5_switch_2 `sublist_of` s5_probes
  /\ StronglySorted byLatency (in_RelaysToSwitch s5_switch_2).
Proof.
  assert (Hin : s5_switch_2 ∈ FindFastestRelays (Ok []) (fun _ => s5_probes) s5_ignored).
  { rewrite FindFastestRelays_s5. right. left. }
  split; [exact byLatency_s5_probes|]. split; [exact Hin|].
  destruct (FindFastestRelays_switch_threshold [] (fun _ => s5_probes) s5_ignored
              s5_switch_2 byLatency_s5_probes Hin)
    as (_ & info & _ & _ & _ & _ & _ & _ & _ & Hsub & Hsorted).
  split; [exact Hsub | exact Hsorted].
Defined.

(** The relay 1.1.1.1 probed at 16.016 ms and the candidate 4.4.4.4 at
    6.016 ms: the sum 6.016 + 10 rounds to the float of 16.016, the relay
    is not less than it, and the [Switch] is sent. *)
Example FindFastestRelays_rounding :
  FindFastestRelays (@Ok Peers []) (fun _ => rounding_probes) rounding_ignored
  = [ switchInstruction
        ({| rs_ip := "1.1.1.1"; rs_port := 1809 |},
         [ probe "4.4.4.4" 0x1.810624dd2f1aap+2%float ]) ].
Proof. vm_compute. reflexivity. Qed.

(** The two latencies of that input: their sum with 10 is the float of
    16.016 exactly, and the numbers they stand for differ by less than
    10. *)
Example rounding_latencies :
  (0x1.810624dd2f1aap+2 + latencyThreshold =? 0x1.004189374bc6ap+4)%float = true
  /\ (valueOf latencyThreshold == 10)%Q
  /\ (valueOf 0x1.004189374bc6ap+4%float - valueOf 0x1.810624dd2f1aap+2%float < 10)%Q.
Proof. vm_compute. repeat split. Qed.

(** C3 as it is stated fails: the candidates of a [Switch] are not always
    faster than the relay by 10 at least, neither for the numbers the
    latencies stand for nor for their difference in binary64. *)
Lemma switch_short_of_threshold :
  ~ (forall relays getPingLatencies (ignoredRelays : gmap string RelayInfo)
            instruction info candidate,
       StronglySorted byLatency (getPingLatencies relays) ->
       instruction ∈ FindFastestRelays (Ok relays) getPingLatencies ignoredRelays ->
       ignoredRelays !! in_IP instruction = Some info ->
       candidate ∈ in_RelaysToSwitch instruction ->
       let latency :=
         probedLatency (getPingLatencies relays) (in_IP instruction)
           (ri_Latency info) in
       (10 <= valueOf latency - valueOf (nl_Latency candidate))%Q
       \/ PrimFloat.leb latencyThreshold (latency - nl_Latency candidate)%float = true).
Proof.
  intros Hclaim.
  destruct (Hclaim [] (fun _ => rounding_probes) rounding_ignored
              (switchInstruction
                 ({| rs_ip := "1.1.1.1"; rs_port := 1809 |},
                  [ probe "4.4.4.4" 0x1.810624dd2f1aap+2%float ]))
              (autoInfo 1809 0%float)
              (probe "4.4.4.4" 0x1.810624dd2f1aap+2%float)) as [Hexact|Hfloat].
  - repeat constructor.
  - rewrite FindFastestRelays_rounding. left.
  - vm_compute. reflexivity.
  - left.
  - vm_compute in Hexact. apply Hexact. reflexivity.
  - vm_compute in Hfloat. discriminate.
Qed.

(** Scenario S5: the static relay 9.9.9.9 is connected and slowest, and
    no instruction names it. *)
Lemma FindFastestRelays_never_switches_static_witness :
  Forall (fun instruction => in_IP instruction <> "9.9.9.9")
         (FindFastestRelays (Ok []) (fun _ => s5_probes) s5_ignored).
Proof.
  apply Forall_forall. intros instruction.
  apply (proj2 (proj2 (FindFastestRelays_never_switches_static (Ok [])
                         (fun _ => s5_probes) s5_ignored))
           "9.9.9.9" (staticInfo 0 1809) instruction).
  - vm_compute. reflexivity.
  - reflexivity.
Defined.

(** * More of the package *)

(** ** [manageAutoRelays] *)

(** The loop over the probes: what it sends and what it stores. *)
Lemma connectFastest_spec net clock pingLatencies :
  forall k autoRelayCount autoRelayCounter (ignoredRelays : gmap string RelayInfo)
         sent ignored' sent',
    connectFastest net clock k pingLatencies autoRelayCount autoRelayCounter
      ignoredRelays sent = (ignored', sent') ->
    exists new,
      sent' = (sent ++ new)%list
      /\ Forall (fun instruction =>
                   isAutoConnect instruction
                   /\ ignoredRelays !! in_IP instruction = None
                   /\ exists info,
                        ignored' !! in_IP instruction = Some info
                        /\ isAutoEntry (in_Port instruction) info) new
      /\ NoDup (in_IP <$> new)
      /\ (forall ip info, ignoredRelays !! ip = Some info -> ignored' !! ip = Some info)
      /\ (forall ip,
            ignoredRelays !! ip = None ->
            is_Some (ignored' !! ip) <-> ip ∈ in_IP <$> new)
      /\ (autoRelayCounter < autoRelayCount ->
          Z.of_nat (length new) <= autoRelayCount - autoRelayCounter).
Proof.
  induction pingLatencies as [|p rest IH];
    intros k count counter ig sent ig' sent' Hrun; simpl in Hrun.
  - injection Hrun as <- <-.
    exists []. rewrite app_nil_r. split; [reflexivity|]. split; [constructor|].
    split; [constructor|]. split; [auto|]. split; [|simpl; lia].
    intros ip Hnone. rewrite Hnone. split; [intros [? ?]; discriminate|].
    intros Hin. inversion Hin.
  - destruct (GetIP net (nl_IP p)) as [newIP|e]; [|eapply IH; exact Hrun].
    destruct (ig !! newIP) as [old|] eqn:Hold; [eapply IH; exact Hrun|].
    set (ig1 := <[newIP := newAutoInfo (clock k) (nl_Port p)]> ig) in *.
    set (first := connectAuto newIP (nl_Port p)) in *.
    assert (Hig1 : ig1 !! newIP = Some (newAutoInfo (clock k) (nl_Port p)))
      by apply lookup_insert_eq.
    destruct (counter + 1 =? count) eqn:Hcount.
    + injection Hrun as <- <-.
      exists [first]. split; [reflexivity|].
      split.
      { constructor; [|constructor]. split; [repeat split|]. split; [exact Hold|].
        exists (newAutoInfo (clock k) (nl_Port p)). split; [exact Hig1 | repeat split]. }
      split; [repeat constructor; intros H; inversion H|].
      split.
      { intros ip info Hip. unfold ig1. rewrite lookup_insert_ne; [exact Hip | congruence]. }
      split; [|intros _; simpl; lia].
      intros ip Hnone. simpl. rewrite list_elem_of_singleton.
      destruct (decide (newIP = ip)) as [->|Hne].
      * rewrite Hig1. split; [reflexivity | eauto].
      * unfold ig1. rewrite lookup_insert_ne, Hnone by exact Hne.
        split; [intros [? ?]; discriminate | congruence].
    + apply IH in Hrun as (new & Hsent & Hall & Hnd & Hkeep & Hdom & Hlen).
      pose proof (Hkeep _ _ Hig1) as Hfirst.
      exists (first :: new). split; [rewrite Hsent, <- app_assoc; reflexivity|].
      split.
      { constructor.
        - split; [repeat split|]. split; [exact Hold|].
          exists (newAutoInfo (clock k) (nl_Port p)). split; [exact Hfirst | repeat split].
        - eapply Forall_impl; [exact Hall|]. simpl.
          intros i (Hi & Hnone & Hinfo). split; [exact Hi|]. split; [|exact Hinfo].
          unfold ig1 in Hnone. apply lookup_insert_None in Hnone. tauto. }
      split.
      { simpl. apply NoDup_cons. split; [|exact Hnd].
        intros Hin. apply list_elem_of_fmap in Hin as (i & Hip & Hi).
        rewrite Forall_forall in Hall. destruct (Hall i Hi) as (_ & Hnone & _).
        rewrite <- Hip in Hnone. simpl in Hnone. congruence. }
      split.
      { intros ip info Hip. apply Hkeep. unfold ig1.
        rewrite lookup_insert_ne; [exact Hip | congruence]. }
      split.
      { intros ip Hnone. simpl. rewrite elem_of_cons.
        destruct (decide (newIP = ip)) as [->|Hne].
        - rewrite Hfirst. split; [auto | eauto].
        - rewrite Hdom by (unfold ig1; rewrite lookup_insert_ne by exact Hne; exact Hnone).
          split; [auto | intros [?|?]; [congruence | assumption]]. }
      intros Hlt. apply Z.eqb_neq in Hcount. simpl length.
      assert (Hlt' : counter + 1 < count) by lia. specialize (Hlen Hlt'). lia.
Qed.

Lemma manageAutoRelays_spec net getPingLatencies clock autoRelayCount relays
    (ignoredRelays : gmap string RelayInfo) :
  exists new,
    (manageAutoRelays net getPingLatencies clock autoRelayCount relays ignoredRelays).2
    = new
    /\ Forall (fun instruction =>
                isAutoConnect instruction
                /\ ignoredRelays !! in_IP instruction = None
                /\ exists info,
                     (manageAutoRelays net getPingLatencies clock autoRelayCount
                        relays ignoredRelays).1 !! in_IP instruction = Some info
                     /\ isAutoEntry (in_Port instruction) info) new
    /\ NoDup (in_IP <$> new)
    /\ (forall ip info,
          ignoredRelays !! ip = Some info ->
          (manageAutoRelays net getPingLatencies clock autoRelayCount relays
             ignoredRelays).1 !! ip = Some info)
    /\ (forall ip,
          ignoredRelays !! ip = None ->
          is_Some ((manageAutoRelays net getPingLatencies clock autoRelayCount relays
                      ignoredRelays).1 !! ip)
          <-> ip ∈ in_IP <$> new)
    /\ (0 < autoRelayCount -> Z.of_nat (length new) <= autoRelayCount).
Proof.
  unfold manageAutoRelays.
  destruct (decide (length (getPingLatencies relays) = 0%nat)) as [Hempty|Hsome].
  - exists []. simpl. split; [reflexivity|]. split; [constructor|].
    split; [constructor|]. split; [auto|]. split; [|lia].
    intros ip Hnone. rewrite Hnone. split; [intros [? ?]; discriminate|].
    intros Hin. inversion Hin.
  - destruct (connectFastest net clock 0 (getPingLatencies relays) autoRelayCount 0
                ignoredRelays []) as [ig' sent'] eqn:Hrun.
    apply connectFastest_spec in Hrun as (new & -> & Hall & Hnd & Hkeep & Hdom & Hlen).
    exists new. simpl. split; [reflexivity|]. split; [exact Hall|].
    split; [exact Hnd|]. split; [exact Hkeep|]. split; [exact Hdom|].
    intros Hpos. specialize (Hlen Hpos). lia.
Qed.

(** X1. Every instruction [manageAutoRelays] sends is a [Connect] that is
    not static, for an IP the map did not hold before the call and holds
    after it as connected, not static, with the port of the instruction;
    no two instructions of one call name the same IP. *)
Theorem manageAutoRelays_connects_fresh_relays net getPingLatencies clock
    autoRelayCount relays (ignoredRelays : gmap string RelayInfo) :
  let done :=
    manageAutoRelays net getPingLatencies clock autoRelayCount relays ignoredRelays in
  Forall (fun instruction =>
            isAutoConnect instruction
            /\ ignoredRelays !! in_IP instruction = None
            /\ exists info,
                 done.1 !! in_IP instruction = Some info
                 /\ isAutoEntry (in_Port instruction) info) done.2
  /\ NoDup (in_IP <$> done.2).
Proof.
  intros done.
  destruct (manageAutoRelays_spec net getPingLatencies clock autoRelayCount relays
              ignoredRelays) as (new & Hsent & Hall & Hnd & _).
  unfold done. rewrite Hsent. split; [exact Hall | exact Hnd].
Qed.

(** X2. [manageAutoRelays] never changes or removes an entry of the map:
    the map after the call is the map before it, extended at exactly the
    IPs of the instructions sent. *)
Theorem manageAutoRelays_only_adds net getPingLatencies clock autoRelayCount relays
    (ignoredRelays : gmap string RelayInfo) :
  let done :=
    manageAutoRelays net getPingLatencies clock autoRelayCount relays ignoredRelays in
  ignoredRelays ⊆ done.1
  /\ dom done.1 = dom ignoredRelays ∪ list_to_set (in_IP <$> done.2).
Proof.
  intros done.
  destruct (manageAutoRelays_spec net getPingLatencies clock autoRelayCount relays
              ignoredRelays) as (new & Hsent & _ & _ & Hkeep & Hdom & _).
  fold done in Hsent, Hkeep, Hdom. rewrite Hsent. split.
  - apply map_subseteq_spec. exact Hkeep.
  - apply set_eq. intros ip.
    rewrite elem_of_union, !elem_of_dom, elem_of_list_to_set.
    destruct (ignoredRelays !! ip) as [info|] eqn:Hip.
    + rewrite (Hkeep _ _ Hip). split; [intros _; left; eauto | eauto].
    + rewrite (Hdom _ Hip). split; [auto|]. intros [[? ?]|?]; [discriminate | assumption].
Qed.

(** X3. Asked for a positive number of relays, [manageAutoRelays] sends
    at most that many instructions. *)
Theorem manageAutoRelays_at_most_count net getPingLatencies clock autoRelayCount relays
    (ignoredRelays : gmap string RelayInfo) :
  0 < autoRelayCount ->
  Z.of_nat (length (manageAutoRelays net getPingLatencies clock autoRelayCount relays
                      ignoredRelays).2) <= autoRelayCount.
Proof.
  intros Hpos.
  destruct (manageAutoRelays_spec net getPingLatencies clock autoRelayCount relays
              ignoredRelays) as (new & Hsent & _ & _ & _ & _ & Hlen).
  rewrite Hsent. apply Hlen, Hpos.
Qed.

Lemma manageAutoRelays_at_most_count_witness :
  0 < 1
  /\ Z.of_nat (length (manageAutoRelays offlineNet s1_latencies clockZero 1 s1_peers
                         s5_ignored).2) <= 1.
Proof.
  split; [lia|].
  apply (manageAutoRelays_at_most_count offlineNet s1_latencies clockZero 1 s1_peers
           s5_ignored). lia.
Defined.

(** ** [DirectRelayConnections] *)

Lemma connectOverrides_spec clock relays :
  forall k (ignoredRelays : gmap string RelayInfo) sent ignored' sent',
    NoDup relays.*1 ->
    connectOverrides clock k relays ignoredRelays sent = (ignored', sent') ->
    sent' = (sent ++ (connectOf <$> relays))%list
    /\ (forall ip, ip ∉ relays.*1 -> ignored' !! ip = ignoredRelays !! ip)
    /\ (forall ip port,
          (ip, port) ∈ relays ->
          exists info, ignored' !! ip = Some info /\ isStaticEntry port info).
Proof.
  induction relays as [|[ip0 port0] rest IH]; intros k ig sent ig' sent' Hnd Hrun;
    simpl in Hrun.
  - injection Hrun as <- <-. rewrite app_nil_r. split; [reflexivity|].
    split; [reflexivity|]. intros ip port Hin. inversion Hin.
  - simpl in Hnd. apply NoDup_cons in Hnd as [Hfresh Hnd].
    apply IH in Hrun as (Hsent & Hother & Hstatic); [|exact Hnd].
    split; [rewrite Hsent, <- app_assoc; reflexivity|]. split.
    + intros ip Hnot. simpl in Hnot. apply not_elem_of_cons in Hnot as [Hne Hnot].
      rewrite (Hother ip Hnot). apply lookup_insert_ne. congruence.
    + intros ip port Hin. apply elem_of_cons in Hin as [[= -> ->]|Hin].
      * exists (staticInfo (clock k) port0).
        rewrite (Hother ip0 Hfresh), lookup_insert_eq. split; [reflexivity | repeat split].
      * apply Hstatic, Hin.
Qed.

(** What a call whose specification parses does before it turns to the
    automatic relays. *)
Lemma DirectRelayConnections_static net getRelays clock relayHosts relayLimit
    (ignoredRelays : gmap string RelayInfo) overrideRelays autoCount :
  parsedCmdlineRelays net relayHosts relayLimit = Ok (overrideRelays, autoCount) ->
  let o := DirectRelayConnections net getRelays clock relayHosts relayLimit
             ignoredRelays in
  do_sent o = connectOf <$> map_to_list overrideRelays
  /\ (forall ip, overrideRelays !! ip = None -> do_ignored o !! ip = ignoredRelays !! ip)
  /\ (forall ip port,
        overrideRelays !! ip = Some port ->
        exists info, do_ignored o !! ip = Some info /\ isStaticEntry port info).
Proof.
  intros Hparse o. unfold o, DirectRelayConnections. rewrite Hparse.
  destruct (connectOverrides clock 0 (map_to_list overrideRelays) ignoredRelays [])
    as [ig' sent'] eqn:Hrun.
  apply connectOverrides_spec in Hrun as (Hsent & Hother & Hstatic);
    [|apply NoDup_fst_map_to_list].
  simpl in Hsent.
  assert (Hgoal :
    sent' = connectOf <$> map_to_list overrideRelays
    /\ (forall ip, overrideRelays !! ip = None -> ig' !! ip = ignoredRelays !! ip)
    /\ (forall ip port,
          overrideRelays !! ip = Some port ->
          exists info, ig' !! ip = Some info /\ isStaticEntry port info)).
  { split; [exact Hsent|]. split.
    - intros ip Hnone. apply Hother. intros Hin.
      apply list_elem_of_fmap in Hin as ([ip' port] & -> & Hin).
      apply elem_of_map_to_list in Hin. simpl in Hnone. congruence.
    - intros ip port Hin. apply Hstatic, elem_of_map_to_list, Hin. }
  destruct (autoCount =? 0); [exact Hgoal|].
  destruct getRelays as [relays|e]; [|exact Hgoal].
  destruct (decide (length relays = 0%nat)); exact Hgoal.
Qed.

(** X4. When the specification parses, [DirectRelayConnections] sends one
    static [Connect] for each override relay and nothing else, and stores
    each of them as connected and static with its port, over whatever the
    map held for that IP; the other entries of the map are left as they
    were.  This holds whatever the directory answers afterwards. *)
Theorem DirectRelayConnections_connects_overrides net getRelays clock relayHosts
    relayLimit (ignoredRelays : gmap string RelayInfo) overrideRelays autoCount :
  parsedCmdlineRelays net relayHosts relayLimit = Ok (overrideRelays, autoCount) ->
  let o := DirectRelayConnections net getRelays clock relayHosts relayLimit
             ignoredRelays in
  (forall instruction,
     instruction ∈ do_sent o
     <-> exists ip port,
           overrideRelays !! ip = Some port /\ instruction = connectStatic ip port)
  /\ length (do_sent o) = size overrideRelays
  /\ (forall ip, overrideRelays !! ip = None -> do_ignored o !! ip = ignoredRelays !! ip)
  /\ (forall ip port,
        overrideRelays !! ip = Some port ->
        exists info, do_ignored o !! ip = Some info /\ isStaticEntry port info).
Proof.
  intros Hparse o.
  destruct (DirectRelayConnections_static net getRelays clock relayHosts relayLimit
              ignoredRelays overrideRelays autoCount Hparse) as (Hsent & Hother & Hstatic).
  fold o in Hsent, Hother, Hstatic. rewrite Hsent.
  split; [|split; [|split; [exact Hother | exact Hstatic]]].
  - intros instruction. rewrite list_elem_of_fmap. split.
    + intros ([ip port] & -> & Hin). apply elem_of_map_to_list in Hin.
      exists ip, port. split; [exact Hin | reflexivity].
    + intros (ip & port & Hin & ->). exists (ip, port).
      split; [reflexivity | apply elem_of_map_to_list, Hin].
  - rewrite length_fmap. apply length_map_to_list.
Qed.

(** X5. With no [auto] in the specification the directory is not asked:
    the call returns no error, starts no task, and its outcome is the same
    whatever the directory would answer. *)
Theorem DirectRelayConnections_no_auto_no_fetch net clock relayHosts relayLimit
    (ignoredRelays : gmap string RelayInfo) overrideRelays :
  parsedCmdlineRelays net relayHosts relayLimit = Ok (overrideRelays, 0) ->
  forall getRelays getRelays',
    DirectRelayConnections net getRelays clock relayHosts relayLimit ignoredRelays
    = DirectRelayConnections net getRelays' clock relayHosts relayLimit ignoredRelays
    /\ do_err (DirectRelayConnections net getRelays clock relayHosts relayLimit
                ignoredRelays) = None
    /\ do_spawned (DirectRelayConnections net getRelays clock relayHosts relayLimit
                    ignoredRelays) = None.
Proof.
  intros Hparse getRelays getRelays'. unfold DirectRelayConnections. rewrite Hparse.
  destruct (connectOverrides clock 0 (map_to_list overrideRelays) ignoredRelays [])
    as [ig' sent']. simpl. auto.
Qed.

(** X6. With an [auto] in the specification, a directory that fails or
    lists no relay makes the call return an error after the override
    relays were stored and their [Connect]s sent: the error does not undo
    them, and no task is started. *)
Theorem DirectRelayConnections_directory_failure net getRelays clock relayHosts
    relayLimit (ignoredRelays : gmap string RelayInfo) overrideRelays autoCount :
  parsedCmdlineRelays net relayHosts relayLimit = Ok (overrideRelays, autoCount) ->
  autoCount <> 0 ->
  (forall relays, getRelays = Ok relays -> relays = []) ->
  let o := DirectRelayConnections net getRelays clock relayHosts relayLimit
             ignoredRelays in
  do_err o = Some (match getRelays with
                   | Err err => ErrRelayList err
                   | Ok _ => ErrNoRelays
                   end)
  /\ do_spawned o = None
  /\ do_sent o = connectOf <$> map_to_list overrideRelays
  /\ (forall ip port,
        overrideRelays !! ip = Some port ->
        exists info, do_ignored o !! ip = Some info /\ isStaticEntry port info).
Proof.
  intros Hparse Hauto Hfail o.
  destruct (DirectRelayConnections_static net getRelays clock relayHosts relayLimit
              ignoredRelays overrideRelays autoCount Hparse) as (Hsent & _ & Hstatic).
  fold o in Hsent, Hstatic.
  split; [|split; [|split; [exact Hsent | exact Hstatic]]];
    unfold o, DirectRelayConnections; rewrite Hparse;
    destruct (connectOverrides clock 0 (map_to_list overrideRelays) ignoredRelays [])
      as [ig' sent'];
    apply Z.eqb_neq in Hauto; rewrite Hauto;
    destruct getRelays as [relays|e]; try reflexivity;
    rewrite (Hfail relays eq_refl); reflexivity.
Qed.

Lemma parsedCmdlineRelays_within net relayLimit relayHosts overrideRelays autoCount :
  is_uint64 relayLimit ->
  parsedCmdlineRelays net relayHosts relayLimit = Ok (overrideRelays, autoCount) ->
  0 <= autoCount /\ Z.of_nat (size overrideRelays) + autoCount <= relayLimit.
Proof.
  intros Hl Hrun.
  pose proof (parsedCmdlineRelays_ok_nonempty _ _ _ _ Hrun) as Hne.
  rewrite (parsedCmdlineRelays_loop _ _ _ Hne) in Hrun.
  pose proof (parseLoop_within net relayLimit Hl _ _ _ (within_initial relayLimit Hl) Hrun)
    as [Ha Hc].
  unfold relayCount in Hc. simpl in *. lia.
Qed.

(** X7. A call of [DirectRelayConnections] and the task it starts send
    together at most [relayLimit] instructions, whatever the specification
    and the answers of the directory and of the prober are. *)
Theorem bootstrap_within_limit net getRelays getPingLatencies clock relayHosts
    relayLimit (ignoredRelays : gmap string RelayInfo) :
  is_uint64 relayLimit ->
  Z.of_nat (length (bootstrap net getRelays getPingLatencies clock relayHosts
                      relayLimit ignoredRelays).2) <= relayLimit.
Proof.
  intros Hl. unfold bootstrap.
  destruct (parsedCmdlineRelays net relayHosts relayLimit) as [[m a]|e] eqn:Hparse.
  - destruct (parsedCmdlineRelays_within _ _ _ _ _ Hl Hparse) as [Ha Hbound].
    destruct (DirectRelayConnections_static net getRelays clock relayHosts relayLimit
                ignoredRelays m a Hparse) as (Hsent & _).
    assert (Hlen : length (do_sent (DirectRelayConnections net getRelays clock
                                      relayHosts relayLimit ignoredRelays)) = size m).
    { rewrite Hsent, length_fmap. apply length_map_to_list. }
    destruct (do_spawned (DirectRelayConnections net getRelays clock relayHosts
                            relayLimit ignoredRelays)) as [[autoCount relays]|] eqn:Hsp.
    + assert (Hcount : autoCount = a /\ a <> 0).
      { revert Hsp. unfold DirectRelayConnections. rewrite Hparse.
        destruct (connectOverrides clock 0 (map_to_list m) ignoredRelays []) as [ig' s'].
        destruct (a =? 0) eqn:Ha0; [discriminate|]. apply Z.eqb_neq in Ha0.
        destruct getRelays as [rs|e]; [|discriminate].
        destruct (decide (length rs = 0%nat)); [discriminate|].
        simpl. intros [= <- <-]. auto. }
      destruct Hcount as [-> Hne]. simpl. rewrite length_app, Hlen.
      pose proof (manageAutoRelays_spec net getPingLatencies clock a relays
                    (do_ignored (DirectRelayConnections net getRelays clock relayHosts
                                   relayLimit ignoredRelays)))
        as (new & Hnew & _ & _ & _ & _ & Hcount).
      rewrite Hnew. assert (Hpos : 0 < a) by lia. specialize (Hcount Hpos). lia.
    + simpl. rewrite Hlen. lia.
  - unfold DirectRelayConnections. rewrite Hparse. simpl.
    unfold is_uint64 in Hl. lia.
Qed.

(** ** [FindNewRelay] *)

Lemma connectToNewRelay_spec net getPingLatencies clock getRelays
    (ignoredRelays : gmap string RelayInfo) :
  let r := connectToNewRelay net getPingLatencies clock getRelays ignoredRelays in
  (is_Some r.1 <-> ~ exists relays, getRelays = Ok relays /\ relays <> [])
  /\ (is_Some r.1 -> r.2 = (ignoredRelays, []))
  /\ (forall relays,
        getRelays = Ok relays -> relays <> [] ->
        r = (None, manageAutoRelays net getPingLatencies clock 1 relays ignoredRelays)).
Proof.
  unfold connectToNewRelay. destruct getRelays as [relays|e]; simpl.
  - destruct (decide (length relays = 0%nat)) as [Hlen|Hlen]; simpl.
    + destruct relays; [|discriminate]. split; [|split].
      * split; [intros _ (rs & [= <-] & Hne); congruence | eauto].
      * reflexivity.
      * intros rs [= <-] Hne. congruence.
    + split; [|split].
      * split; [intros [? ?]; discriminate|]. intros Hno. exfalso. apply Hno.
        exists relays. split; [reflexivity|]. intros ->. apply Hlen. reflexivity.
      * intros [? ?]; discriminate.
      * intros rs [= <-] _. reflexivity.
  - split; [|split].
    + split; [intros _ (rs & Hrs & _); discriminate | eauto].
    + reflexivity.
    + intros rs Hrs. discriminate.
Qed.

Lemma retryConnect_spec net getPingLatencies clock attempts
    (ignoredRelays : gmap string RelayInfo) :
  (is_Some (retryConnect net getPingLatencies clock attempts ignoredRelays)
   <-> Exists endsLoop attempts)
  /\ forall done,
       retryConnect net getPingLatencies clock attempts ignoredRelays = Some done ->
       done = (ignoredRelays, [])
       \/ exists relays,
            relays <> []
            /\ done = manageAutoRelays net getPingLatencies clock 1 relays ignoredRelays.
Proof.
  induction attempts as [|[getRelays wait] rest [IHsome IHdone]]; simpl.
  - split; [|discriminate]. split; [intros [? ?]; discriminate | intros H; inversion H].
  - pose proof (connectToNewRelay_spec net getPingLatencies clock getRelays ignoredRelays)
      as (Herr & Hnothing & Hok). simpl in Herr, Hnothing, Hok.
    destruct (connectToNewRelay net getPingLatencies clock getRelays ignoredRelays)
      as [[err|] done0] eqn:Hc; simpl in *.
    + assert (Hbad : ~ exists relays, getRelays = Ok relays /\ relays <> [])
        by (apply Herr; eauto).
      destruct wait.
      * split.
        -- rewrite IHsome, Exists_cons. split; [auto|].
           intros [[Hgood|Hctx]|Hrest]; [contradiction | discriminate | exact Hrest].
        -- exact IHdone.
      * split.
        -- split; [intros _; apply Exists_cons_hd; right; reflexivity | eauto].
        -- intros done [= <-]. left. reflexivity.
    + assert (Hgood : exists relays, getRelays = Ok relays /\ relays <> []).
      { destruct getRelays as [relays|e].
        - destruct relays as [|r rs].
          + unfold connectToNewRelay in Hc. simpl in Hc. discriminate.
          + exists (r :: rs). split; [reflexivity | discriminate].
        - unfold connectToNewRelay in Hc. discriminate. }
      split.
      * split; [intros _; apply Exists_cons_hd; left; exact Hgood | eauto].
      * intros done [= <-]. right. destruct Hgood as (relays & Hrs & Hne).
        exists relays. split; [exact Hne|].
        specialize (Hok relays Hrs Hne). congruence.
Qed.

(** X8. When [FindNewRelay] returns, the relay it was called for is in the
    map as not connected, with the port given; the call has sent at most
    one instruction, a [Connect] that is not static for another IP, one
    the map did not hold before. *)
Theorem FindNewRelay_retires_old_relay net getPingLatencies now clock oldRelayIP
    oldRelayIPPort attempts (ignoredRelays : gmap string RelayInfo) :
  match FindNewRelay net getPingLatencies now clock oldRelayIP oldRelayIPPort
          attempts ignoredRelays with
  | None => True
  | Some (ignored', sent) =>
      ignored' !! oldRelayIP = Some (retiredInfo now oldRelayIPPort)
      /\ (length sent <= 1)%nat
      /\ Forall (fun instruction =>
                   isAutoConnect instruction
                   /\ in_IP instruction <> oldRelayIP
                   /\ ignoredRelays !! in_IP instruction = None
                   /\ exists info,
                        ignored' !! in_IP instruction = Some info
                        /\ isAutoEntry (in_Port instruction) info) sent
  end.
Proof.
  unfold FindNewRelay.
  set (ig0 := <[oldRelayIP := retiredInfo now oldRelayIPPort]> ignoredRelays).
  assert (Hold : ig0 !! oldRelayIP = Some (retiredInfo now oldRelayIPPort))
    by apply lookup_insert_eq.
  destruct (retryConnect net getPingLatencies clock attempts ig0)
    as [[ignored' sent]|] eqn:Hrun; [|exact I].
  apply (proj2 (retryConnect_spec _ _ _ _ _)) in Hrun
    as [[= -> ->]|(relays & Hne & Hdone)].
  - split; [exact Hold|]. split; [simpl; lia | constructor].
  - pose proof (manageAutoRelays_spec net getPingLatencies clock 1 relays ig0)
      as (new & Hnew & Hall & _ & Hkeep & _ & Hlen).
    rewrite <- Hdone in Hnew, Hall, Hkeep. simpl in Hnew, Hall, Hkeep. subst new.
    split; [apply Hkeep, Hold|]. split; [specialize (Hlen ltac:(lia)); lia|].
    eapply Forall_impl; [exact Hall|]. simpl.
    intros i (Hi & Hnone & Hinfo).
    assert (Hdiff : in_IP i <> oldRelayIP) by (intros Heq; rewrite Heq in Hnone; congruence).
    split; [exact Hi|]. split; [exact Hdiff|]. split; [|exact Hinfo].
    unfold ig0 in Hnone. apply lookup_insert_None in Hnone. tauto.
Qed.

(** X9. [FindNewRelay] returns exactly when some attempt gets a list of
    relays that is not empty from the directory, or fails and finds the
    context done; whether a relay was connected plays no part. *)
Theorem FindNewRelay_returns_iff net getPingLatencies now clock oldRelayIP
    oldRelayIPPort attempts (ignoredRelays : gmap string RelayInfo) :
  is_Some (FindNewRelay net getPingLatencies now clock oldRelayIP oldRelayIPPort
             attempts ignoredRelays)
  <-> Exists endsLoop attempts.
Proof. unfold FindNewRelay. apply retryConnect_spec. Qed.

(** ** [FindFastestRelays], exactly *)

Lemma findFastestAvailableRelays_latencies pingLatencies :
  forall (connectedAutoRelays : gmap string RelayInfo) ip,
    (findFastestAvailableRelays pingLatencies connectedAutoRelays).2 !! ip
    = (fun info =>
         set_Latency info (probedLatency pingLatencies ip (ri_Latency info)))
        <$> connectedAutoRelays !! ip.
Proof.
  induction pingLatencies as [|p rest IH]; intros c ip.
  - simpl. destruct (c !! ip) as [[]|]; reflexivity.
  - cbn [findFastestAvailableRelays]. destruct (c !! nl_IP p) as [info0|] eqn:Hp.
    + rewrite IH. destruct (decide (nl_IP p = ip)) as [<-|Hne].
      * rewrite lookup_insert_eq, Hp. cbn [fmap option_fmap option_map].
        rewrite probedLatency_cons, decide_True by reflexivity. reflexivity.
      * rewrite lookup_insert_ne by exact Hne.
        destruct (c !! ip) as [info|]; [|reflexivity]. cbn [fmap option_fmap option_map].
        rewrite probedLatency_cons, decide_False by exact Hne. reflexivity.
    + specialize (IH c ip).
      destruct (findFastestAvailableRelays rest c) as [f c']. cbn [fst snd] in *.
      rewrite IH. destruct (c !! ip) as [info|] eqn:Hip; [|reflexivity].
      cbn [fmap option_fmap option_map].
      rewrite probedLatency_cons, decide_False by congruence. reflexivity.
Qed.

(** A candidate left available is not a relay of the map given. *)
Lemma findFastestAvailableRelays_available pingLatencies :
  forall (connectedAutoRelays : gmap string RelayInfo) candidate,
    candidate ∈ (findFastestAvailableRelays pingLatencies connectedAutoRelays).1 ->
    connectedAutoRelays !! nl_IP candidate = None.
Proof.
  induction pingLatencies as [|p rest IH]; intros c candidate Hin; simpl in Hin.
  - inversion Hin.
  - destruct (c !! nl_IP p) as [info0|] eqn:Hp.
    + apply IH in Hin. apply lookup_insert_None in Hin. tauto.
    + specialize (IH c candidate).
      destruct (findFastestAvailableRelays rest c) as [f c']. simpl in *.
      apply elem_of_cons in Hin as [->|Hin]; [exact Hp | auto].
Qed.

Lemma FindFastestRelays_elem_iff getRelays getPingLatencies
    (ignoredRelays : gmap string RelayInfo) instruction :
  instruction ∈ FindFastestRelays getRelays getPingLatencies ignoredRelays
  <-> exists relays info,
        getRelays = Ok relays
        /\ getPingLatencies relays <> []
        /\ ignoredRelays !! in_IP instruction = Some info
        /\ ri_IsConnected info = true /\ ri_IsStatic info = false
        /\ instruction
           = switchFor (getPingLatencies relays) ignoredRelays (in_IP instruction) info
        /\ in_RelaysToSwitch instruction <> [].
Proof.
  unfold FindFastestRelays, switchFor.
  destruct getRelays as [relays|e].
  2:{ split; [intros H; inversion H | intros (? & ? & ? & _); discriminate]. }
  destruct (decide (length (getPingLatencies relays) = 0%nat)) as [Hlen|Hlen].
  { split; [intros H; inversion H|].
    intros (rs & info & [= <-] & Hpings & _).
    destruct (getPingLatencies relays); [congruence | discriminate]. }
  assert (Hpings : getPingLatencies relays <> [])
    by (intros Hnil; rewrite Hnil in Hlen; apply Hlen; reflexivity).
  pose proof (findFastestAvailableRelays_latencies (getPingLatencies relays)
                (getAutoConnectedRelays ignoredRelays)) as Hlat.
  destruct (findFastestAvailableRelays (getPingLatencies relays)
              (getAutoConnectedRelays ignoredRelays)) as [fastest connected] eqn:Hff.
  cbn [fst snd] in Hlat.
  rewrite list_elem_of_fmap. split.
  - intros ([key cands] & -> & Hin).
    apply elem_of_map_to_list, findRelaysToSwitch_lookup in Hin
      as (info' & Hlook & Hport & Hcands & Hne).
    cbn [fst snd] in *. rewrite Hlat in Hlook.
    destruct (getAutoConnectedRelays ignoredRelays !! rs_ip key) as [info|] eqn:Hauto;
      [|discriminate].
    injection Hlook as <-.
    apply getAutoConnectedRelays_lookup in Hauto as (Hig & Hconn & Hstatic).
    exists relays, info. rewrite Hff. simpl in *.
    split; [reflexivity|]. split; [exact Hpings|]. split; [exact Hig|].
    split; [exact Hconn|]. split; [exact Hstatic|]. split; [|exact Hne].
    unfold switchInstruction. simpl. rewrite Hport, Hcands. reflexivity.
  - intros (rs & info & [= <-] & _ & Hig & Hconn & Hstatic & Heq & Hne).
    rewrite Hff in Heq. cbn [fst] in Heq. rewrite Heq in Hne. simpl in Hne.
    exists ({| rs_ip := in_IP instruction; rs_port := ri_Port info |},
            clearing (probedLatency (getPingLatencies relays) (in_IP instruction)
                        (ri_Latency info)) fastest).
    split; [exact Heq|].
    apply elem_of_map_to_list, findRelaysToSwitch_lookup. simpl.
    exists (set_Latency info
              (probedLatency (getPingLatencies relays) (in_IP instruction)
                 (ri_Latency info))).
    split.
    + rewrite Hlat.
      rewrite (proj2 (getAutoConnectedRelays_lookup ignoredRelays _ info)) by auto.
      reflexivity.
    + simpl. auto.
Qed.

(** X10. [FindFastestRelays] sends a [Switch] for a relay exactly when the
    directory answered, some probe came back, the relay is stored as
    connected and not static, and at least one available candidate clears
    the threshold against its probed latency; the instruction is then
    [switchFor] of the relay, and there is one instruction per relay. *)
Theorem FindFastestRelays_one_switch_per_relay getRelays getPingLatencies
    (ignoredRelays : gmap string RelayInfo) :
  (forall instruction,
     instruction ∈ FindFastestRelays getRelays getPingLatencies ignoredRelays
     <-> exists relays info,
           getRelays = Ok relays
           /\ getPingLatencies relays <> []
           /\ ignoredRelays !! in_IP instruction = Some info
           /\ ri_IsConnected info = true /\ ri_IsStatic info = false
           /\ instruction
              = switchFor (getPingLatencies relays) ignoredRelays
                  (in_IP instruction) info
           /\ in_RelaysToSwitch instruction <> [])
  /\ NoDup (in_IP <$> FindFastestRelays getRelays getPingLatencies ignoredRelays).
Proof.
  split; [intros instruction; apply FindFastestRelays_elem_iff|].
  apply NoDup_fmap_2_strong.
  - intros i1 i2 H1 H2 Hip.
    apply FindFastestRelays_elem_iff in H1
      as (relays1 & info1 & Hr1 & _ & Hig1 & _ & _ & Heq1 & _).
    apply FindFastestRelays_elem_iff in H2
      as (relays2 & info2 & Hr2 & _ & Hig2 & _ & _ & Heq2 & _).
    rewrite Heq1, Heq2. rewrite Hip in *.
    assert (relays1 = relays2) by congruence.
    assert (info1 = info2) by congruence.
    subst. reflexivity.
  - unfold FindFastestRelays. destruct getRelays as [relays|e]; [|constructor].
    destruct (decide (length (getPingLatencies relays) = 0%nat)); [constructor|].
    destruct (findFastestAvailableRelays (getPingLatencies relays)
                (getAutoConnectedRelays ignoredRelays)) as [fastest connected].
    apply NoDup_fmap_2_strong; [|apply NoDup_map_to_list].
    intros [k1 c1] [k2 c2] H1 H2 Heq. injection Heq as Hip Hport Hc.
    destruct k1, k2. simpl in *. congruence.
Qed.

(** X11. Every target of a [Switch] is one of the probes, and never a
    relay the map holds as connected and not static: a relay is not asked
    to switch to itself or to another automatic relay in use. *)
Theorem FindFastestRelays_targets_available relays getPingLatencies
    (ignoredRelays : gmap string RelayInfo) :
  Forall (fun instruction =>
            Forall (fun candidate =>
                      candidate ∈ getPingLatencies relays
                      /\ nl_IP candidate <> in_IP instruction
                      /\ forall info,
                           ignoredRelays !! nl_IP candidate = Some info ->
                           ri_IsConnected info = false \/ ri_IsStatic info = true)
                   (in_RelaysToSwitch instruction))
         (FindFastestRelays (Ok relays) getPingLatencies ignoredRelays).
Proof.
  apply Forall_forall. intros instruction Hin.
  apply FindFastestRelays_elem_iff in Hin
    as (relays' & info & [= <-] & _ & Hig & Hconn & Hstatic & Heq & _).
  apply Forall_forall. intros candidate Hc.
  rewrite Heq in Hc. unfold switchFor in Hc. simpl in Hc.
  assert (Hav : candidate ∈ (findFastestAvailableRelays (getPingLatencies relays)
                               (getAutoConnectedRelays ignoredRelays)).1).
  { eapply elem_of_sublist; [exact Hc|]. apply prefix_sublist, clearing_prefix. }
  pose proof (findFastestAvailableRelays_available _ _ _ Hav) as Hnone.
  split; [|split].
  - eapply elem_of_sublist; [exact Hav|]. apply findFastestAvailableRelays_sublist.
  - intros Hip. rewrite Hip in Hnone.
    rewrite (proj2 (getAutoConnectedRelays_lookup ignoredRelays _ info)) in Hnone
      by auto.
    discriminate.
  - intros info' Hig'.
    destruct (ri_IsConnected info') eqn:Hc'; [|left; reflexivity].
    destruct (ri_IsStatic info') eqn:Hs'; [right; reflexivity|].
    rewrite (proj2 (getAutoConnectedRelays_lookup ignoredRelays _ info')) in Hnone
      by auto.
    discriminate.
Qed.

(** ** [getPingLatencies] *)

Lemma timeSubmatch_no_slash out text :
  timeSubmatch out = Some text -> ~ In "/"%char (list_ascii_of_string text).
Proof.
  unfold timeSubmatch. destruct (afterEquals out) as [rest|]; [|discriminate].
  simpl. intros [= <-]. clear. induction rest as [|c rest IH]; simpl; [tauto|].
  destruct (Ascii.eqb c "/") eqn:Hc; simpl; [tauto|].
  intros [->|H]; [discriminate | tauto].
Qed.

(** The latency [getPingLatencies] holds for a peer once its task is
    done: the number read from the output of [ping] when there is one and
    it is greater than 0, and the timeout in every other case. *)
Lemma pingPeer_spec prober peer :
  nl_IP (pingPeer prober peer) = peer_IP peer
  /\ nl_Port (pingPeer prober peer) = peer_Port peer
  /\ PrimFloat.ltb 0 (nl_Latency (pingPeer prober peer)) = true
  /\ nl_Latency (pingPeer prober peer)
     = match ping_stdout prober (peer_IP peer) with
       | None => PingTimeout
       | Some out =>
           match timeSubmatch out with
           | None => PingTimeout
           | Some text =>
               if PrimFloat.ltb 0 (strconv_ParseFloat prober text)
               then strconv_ParseFloat prober text
               else PingTimeout
           end
       end.
Proof.
  unfold pingPeer.
  destruct (ping_stdout prober (peer_IP peer)) as [out|]; [|repeat split].
  destruct (timeSubmatch out) as [text|]; [|repeat split].
  destruct (PrimFloat.ltb 0 (strconv_ParseFloat prober text)) eqn:Hpos;
    [|repeat split].
  simpl. split; [reflexivity|]. split; [reflexivity|]. split; [exact Hpos | reflexivity].
Qed.

Lemma getPingLatencies_sorted_positive_aux prober peers :
  Sorted byLatency (getPingLatencies prober peers)
  /\ getPingLatencies prober peers ≡ₚ pingPeer prober <$> peers.
Proof.
  unfold getPingLatencies.
  split; [apply Sorted_merge_sort; apply _ | apply merge_sort_Permutation].
Qed.

(** No latency of the result is a NaN, so the result is ascending pair
    by pair. *)
Lemma getPingLatencies_StronglySorted prober peers :
  StronglySorted byLatency (getPingLatencies prober peers).
Proof.
  destruct (getPingLatencies_sorted_positive_aux prober peers) as [Hsorted Hperm].
  apply Sorted_StronglySorted_notNaN; [|exact Hsorted].
  apply Forall_forall. intros result Hin. rewrite Hperm in Hin.
  apply list_elem_of_fmap in Hin as (peer & -> & _).
  destruct (pingPeer_spec prober peer) as (_ & _ & Hpos & _).
  apply (ltb_notNaN _ _ Hpos).
Qed.

(** X12. [getPingLatencies] returns one entry for each peer, with its IP
    and port, in ascending order of latency; each latency is greater than
    0: it is the number [strconv.ParseFloat] reads from the first match of
    [TimeRegEx] in the output of [ping] when the command ran, the output
    has a match and the number is greater than 0, and the timeout of
    2000 ms in every other case. *)
Theorem getPingLatencies_sorted_positive prober peers :
  Sorted byLatency (getPingLatencies prober peers)
  /\ getPingLatencies prober peers ≡ₚ pingPeer prober <$> peers
  /\ length (getPingLatencies prober peers) = length peers
  /\ Forall (fun result =>
               PrimFloat.ltb 0 (nl_Latency result) = true
               /\ exists peer,
                    peer ∈ peers
                    /\ nl_IP result = peer_IP peer /\ nl_Port result = peer_Port peer
                    /\ nl_Latency result
                       = match ping_stdout prober (peer_IP peer) with
                         | None => PingTimeout
                         | Some out =>
                             match timeSubmatch out with
                             | None => PingTimeout
                             | Some text =>
                                 if PrimFloat.ltb 0 (strconv_ParseFloat prober text)
                                 then strconv_ParseFloat prober text
                                 else PingTimeout
                             end
                         end)
            (getPingLatencies prober peers).
Proof.
  unfold getPingLatencies.
  split; [apply Sorted_merge_sort; apply _|].
  split; [apply merge_sort_Permutation|].
  split; [rewrite merge_sort_Permutation; apply length_fmap|].
  apply Forall_forall. intros result Hin.
  rewrite merge_sort_Permutation in Hin.
  apply list_elem_of_fmap in Hin as (peer & -> & Hin).
  destruct (pingPeer_spec prober peer) as (Hip & Hport & Hpos & Hread).
  split; [exact Hpos|]. exists peer.
  split; [exact Hin|]. split; [exact Hip|]. split; [exact Hport | exact Hread].
Qed.

(** X13. With the prober of the package, the targets of every [Switch]
    come in ascending order of latency, and the first of them is as fast
    as any candidate left available: a consumer that takes the head of the
    list takes the fastest. *)
Theorem FindFastestRelays_targets_ascending prober relays
    (ignoredRelays : gmap string RelayInfo) :
  Forall (fun instruction =>
            Sorted byLatency (in_RelaysToSwitch instruction)
            /\ exists first,
                 head (in_RelaysToSwitch instruction) = Some first
                 /\ Forall (byLatency first)
                      (findFastestAvailableRelays (getPingLatencies prober relays)
                         (getAutoConnectedRelays ignoredRelays)).1)
         (FindFastestRelays (Ok relays) (getPingLatencies prober) ignoredRelays).
Proof.
  apply Forall_forall. intros instruction Hin.
  apply FindFastestRelays_elem_iff in Hin
    as (relays' & info & [= <-] & _ & _ & _ & _ & Heq & Hne).
  assert (Hcands : in_RelaysToSwitch instruction
                   = clearing (probedLatency (getPingLatencies prober relays)
                                 (in_IP instruction) (ri_Latency info))
                       (findFastestAvailableRelays (getPingLatencies prober relays)
                          (getAutoConnectedRelays ignoredRelays)).1)
    by (rewrite Heq at 1; reflexivity).
  set (fastest := (findFastestAvailableRelays (getPingLatencies prober relays)
                     (getAutoConnectedRelays ignoredRelays)).1) in *.
  assert (Hsorted : StronglySorted byLatency fastest).
  { eapply StronglySorted_sublist; [apply findFastestAvailableRelays_sublist|].
    apply getPingLatencies_StronglySorted. }
  pose proof (clearing_prefix (probedLatency (getPingLatencies prober relays)
                                 (in_IP instruction) (ri_Latency info)) fastest)
    as [rest Hrest].
  rewrite <- Hcands in Hrest.
  split.
  - apply StronglySorted_Sorted. eapply StronglySorted_sublist; [|exact Hsorted].
    rewrite Hrest. apply sublist_inserts_r. reflexivity.
  - destruct (in_RelaysToSwitch instruction) as [|first others]; [congruence|].
    exists first. split; [reflexivity|].
    rewrite Hrest in Hsorted |- *. simpl in *.
    apply StronglySorted_cons in Hsorted as [Hall _].
    constructor; [apply byLatency_refl | exact Hall].
Qed.

(** ** The fetcher, further *)

Lemma http_Ok errorDetails reply b :
  http errorDetails reply = Ok b <-> reply = Response 200 (Ok b).
Proof.
  split; [|intros ->; reflexivity].
  destruct reply as [e|e|status body]; simpl; try discriminate.
  destruct (status =? 200) eqn:Hs; simpl.
  - apply Z.eqb_eq in Hs. subst. destruct body; [congruence | discriminate].
  - destruct (status =? StatusServiceUnavailable); [discriminate|].
    destruct body as [b0|]; [|discriminate].
    destruct (errorDetails b0); discriminate.
Qed.

Lemma isSDNUnavailable_eq e : isSDNUnavailable e = true <-> e = ErrSDNUnavailable.
Proof. destruct e; simpl; split; congruence. Qed.

(** X14. [s.http] returns bytes only for a response of status 200 whose
    body could be read, and then that body; [httpWithCache] returns bytes
    in that case, or when the request ended in [ErrSDNUnavailable] and the
    cache file is there, and then the bytes of the file. *)
Theorem httpWithCache_Ok errorDetails fs dataDir reply fileName b :
  (http errorDetails reply = Ok b <-> reply = Response 200 (Ok b))
  /\ ((httpWithCache errorDetails fs dataDir reply fileName).1 = Ok b
      <-> reply = Response 200 (Ok b)
          \/ (http errorDetails reply = Err ErrSDNUnavailable
              /\ fs_files fs !! path_Join dataDir fileName = Some b)).
Proof.
  split; [apply http_Ok|].
  unfold httpWithCache.
  destruct (http errorDetails reply) as [data|e] eqn:Hhttp.
  - apply http_Ok in Hhttp as ->.
    destruct (UpdateCacheFile fs dataDir fileName data) as [err fs']. simpl.
    split; [intros [= ->]; left; reflexivity|].
    intros [[= ->]|[Hbad _]]; [reflexivity | discriminate].
  - destruct (isSDNUnavailable e) eqn:Hun.
    + apply isSDNUnavailable_eq in Hun as ->. unfold LoadCacheFile.
      destruct (fs_files fs !! path_Join dataDir fileName) as [bytes|]; simpl.
      * split; [intros [= ->]; right; auto|].
        intros [->|[_ [= ->]]]; [discriminate | reflexivity].
      * split; [discriminate|]. intros [->|[_ ?]]; discriminate.
    + simpl. split; [discriminate|].
      intros [->|[[= ->] _]]; discriminate.
Qed.

(** X15. An error of the request other than [ErrSDNUnavailable] (no
    client, no response, a status that is neither 200 nor 503) is returned
    as it is: the cache is not read, even when the file is there, and the
    disk is left as it was. *)
Theorem httpWithCache_error_bypasses_cache errorDetails fs dataDir reply fileName e :
  http errorDetails reply = Err e ->
  e <> ErrSDNUnavailable ->
  httpWithCache errorDetails fs dataDir reply fileName = (Err e, fs).
Proof.
  intros Hhttp Hne. unfold httpWithCache. rewrite Hhttp.
  destruct (isSDNUnavailable e) eqn:Hun; [|reflexivity].
  apply isSDNUnavailable_eq in Hun. contradiction.
Qed.

(** X16. A call touches no file but its cache file, the one [path.Join]
    names, also when the write fails half-way; and it touches the disk
    only after a 200. *)
Theorem httpWithCache_frame errorDetails fs dataDir reply fileName :
  let fs' := (httpWithCache errorDetails fs dataDir reply fileName).2 in
  delete (path_Join dataDir fileName) (fs_files fs')
  = delete (path_Join dataDir fileName) (fs_files fs)
  /\ (fs' = fs \/ exists body, reply = Response 200 (Ok body)).
Proof.
  unfold httpWithCache.
  destruct (http errorDetails reply) as [data|e] eqn:Hhttp.
  - apply http_Ok in Hhttp. unfold UpdateCacheFile.
    destruct (fs_update fs (path_Join dataDir fileName)); simpl;
      (split; [first [apply delete_insert_eq | reflexivity] | right; eauto]).
  - destruct (isSDNUnavailable e); [|simpl; auto].
    destruct (LoadCacheFile fs dataDir fileName); simpl; auto.
Qed.

(** X17. The cache gives back what the directory last sent: after a 200
    whose body was written over no file, or over one that was not longer,
    a 503 on the same cache file returns that body. *)
Theorem httpWithCache_round_trip errorDetails fs dataDir fileName body body' :
  fs_canWrite fs (path_Join dataDir fileName) = true ->
  (String.length (default "" (fs_files fs !! path_Join dataDir fileName))
   <= String.length body)%nat ->
  let fs' :=
    (httpWithCache errorDetails fs dataDir (Response 200 (Ok body)) fileName).2 in
  httpWithCache errorDetails fs' dataDir (Response StatusServiceUnavailable body')
    fileName
  = (Ok body, fs').
Proof.
  intros Hw Hlen fs'.
  pose proof (httpWithCache_ok_disk_fresh errorDetails fs dataDir fileName body Hw Hlen)
    as Hdisk.
  fold fs' in Hdisk.
  unfold httpWithCache at 1. rewrite http_unavailable. simpl.
  unfold LoadCacheFile. rewrite Hdisk. reflexivity.
Qed.

(** ** Blockchain networks, further *)

(** X18. A successful [FetchBlockchainNetwork] stores, under the number
    of the session, the network decoded from the bytes [httpWithCache]
    returned, into the entry the map held or into an empty one.  What is
    stored is the decoded network as it is, except when its protocol is
    Ethereum and its terminal total difficulty is the [int] 0: then the
    difficulty stored is [math.MaxInt] as a [*big.Int], the other fields
    being the decoded ones.  So under Ethereum the stored difficulty is
    never the [int] 0.  No other network and no other field of the
    session changes. *)
Theorem FetchBlockchainNetwork_loads_network json s fs reply s' fs' :
  FetchBlockchainNetwork json s fs reply = (None, s', fs') ->
  (exists resp decoded stored,
     httpWithCache (json_ErrorMessage json) fs (dataDir s) reply
       blockchainNetworkCacheFileName = (Ok resp, fs')
     /\ json_BlockchainNetwork json resp
          (default zeroBlockchainNetwork (networks s !! networkNum s))
        = (decoded, true)
     /\ networks s' !! networkNum s = Some stored
     /\ (bn_Protocol decoded = EthereumProtocol ->
         TerminalTotalDifficulty (bn_DefaultAttributes decoded) = any_int 0 ->
         stored = set_TerminalTotalDifficulty decoded (any_bigInt MaxInt))
     /\ (~ (bn_Protocol decoded = EthereumProtocol
            /\ TerminalTotalDifficulty (bn_DefaultAttributes decoded) = any_int 0) ->
         stored = decoded)
     /\ bn_NetworkNum stored = bn_NetworkNum decoded
     /\ bn_Protocol stored = bn_Protocol decoded
     /\ bn_MinTxAgeSeconds stored = bn_MinTxAgeSeconds decoded
     /\ (bn_Protocol stored = EthereumProtocol ->
         TerminalTotalDifficulty (bn_DefaultAttributes stored) <> any_int 0))
  /\ delete (networkNum s) (networks s') = delete (networkNum s) (networks s)
  /\ accountModel s' = accountModel s
  /\ networkNum s' = networkNum s
  /\ dataDir s' = dataDir s.
Proof.
  unfold FetchBlockchainNetwork.
  destruct (httpWithCache _ fs (dataDir s) reply blockchainNetworkCacheFileName)
    as [[resp|e] fs1]; [|discriminate].
  destruct (json_BlockchainNetwork json resp _) as [decoded ok] eqn:Hdec.
  destruct ok; [|discriminate].
  intros [= <- <-]. simpl.
  split; [|split; [apply delete_insert_eq | auto]].
  exists resp, decoded. eexists.
  split; [reflexivity|]. split; [exact Hdec|]. split; [apply lookup_insert_eq|].
  destruct (bool_decide (bn_Protocol decoded = EthereumProtocol)) eqn:Hp;
    destruct (any_is_int_0 (TerminalTotalDifficulty (bn_DefaultAttributes decoded)))
      eqn:Hz; simpl.
  - apply bool_decide_eq_true in Hp. apply any_is_int_0_true in Hz.
    split; [reflexivity|]. split; [intros Hnot; exfalso; apply Hnot; auto|].
    split; [reflexivity|]. split; [reflexivity|]. split; [reflexivity|].
    intros _. discriminate.
  - apply any_is_int_0_false in Hz.
    split; [intros _ Hzero; contradiction|]. split; [reflexivity|].
    split; [reflexivity|]. split; [reflexivity|]. split; [reflexivity|].
    intros _. exact Hz.
  - apply bool_decide_eq_false in Hp.
    split; [intros He; contradiction|]. split; [reflexivity|].
    split; [reflexivity|]. split; [reflexivity|]. split; [reflexivity|].
    intros He. contradiction.
  - apply bool_decide_eq_false in Hp.
    split; [intros He; contradiction|]. split; [reflexivity|].
    split; [reflexivity|]. split; [reflexivity|]. split; [reflexivity|].
    intros He. contradiction.
Qed.

(** X19. When the request fails, [FetchBlockchainNetwork] returns the
    error and leaves the session as it was; when the response does not
    decode, it returns an error and the map holds an entry for the network
    of the session all the same, the other networks being untouched. *)
Theorem FetchBlockchainNetwork_failure json s fs reply :
  let cached :=
    httpWithCache (json_ErrorMessage json) fs (dataDir s) reply
      blockchainNetworkCacheFileName in
  let '(err, s', fs') := FetchBlockchainNetwork json s fs reply in
  fs' = cached.2
  /\ match cached.1 with
     | Err e => err = Some e /\ s' = s
     | Ok resp =>
         is_Some (networks s' !! networkNum s)
         /\ delete (networkNum s) (networks s') = delete (networkNum s) (networks s)
         /\ (is_Some err
             <-> (json_BlockchainNetwork json resp
                    (default zeroBlockchainNetwork (networks s !! networkNum s))).2
                 = false)
     end.
Proof.
  unfold FetchBlockchainNetwork.
  destruct (httpWithCache _ fs (dataDir s) reply blockchainNetworkCacheFileName)
    as [[resp|e] fs1]; simpl; [|auto].
  destruct (json_BlockchainNetwork json resp _) as [decoded ok].
  destruct ok; simpl.
  - split; [reflexivity|]. split; [rewrite lookup_insert_eq; eauto|].
    split; [apply delete_insert_eq|].
    split; [intros [? ?]; discriminate | discriminate].
  - split; [reflexivity|]. split; [rewrite lookup_insert_eq; eauto|].
    split; [apply delete_insert_eq|]. split; [reflexivity | eauto].
Qed.

Lemma foldl_insert_network_lookup (nets : list BlockchainNetwork) k :
  forall m : gmap Z BlockchainNetwork,
    foldl (fun m n => <[bn_NetworkNum n := n]> m) m nets !! k
    = match last (filter (fun n => bn_NetworkNum n = k) nets) with
      | Some n => Some n
      | None => m !! k
      end.
Proof.
  induction nets as [|n nets IH]; intros m; simpl; [reflexivity|].
  rewrite IH. rewrite filter_cons.
  destruct (decide (bn_NetworkNum n = k)) as [Hk|Hk].
  - rewrite last_cons.
    destruct (last (filter (fun n0 => bn_NetworkNum n0 = k) nets)); [reflexivity|].
    rewrite <- Hk. apply lookup_insert_eq.
  - destruct (last (filter (fun n0 => bn_NetworkNum n0 = k) nets)); [reflexivity|].
    apply lookup_insert_ne, Hk.
Qed.

(** X20. A successful [FetchAllBlockchainNetworks] replaces the map: it
    then holds, for each number, the last network of that number in the
    list decoded, and nothing for a number the list does not have,
    whatever the map held before.  A failed one leaves the session as it
    was. *)
Theorem FetchAllBlockchainNetworks_replaces_map json s fs reply :
  let '(err, s', fs') := FetchAllBlockchainNetworks json s fs reply in
  match err with
  | Some _ => s' = s
  | None =>
      exists resp nets,
        json_BlockchainNetworks json resp = Some nets
        /\ (forall k,
              networks s' !! k
              = last (filter (fun network => bn_NetworkNum network = k) nets))
        /\ accountModel s' = accountModel s
        /\ networkNum s' = networkNum s
        /\ dataDir s' = dataDir s
  end.
Proof.
  unfold FetchAllBlockchainNetworks, getBlockchainNetworks.
  destruct (httpWithCache _ fs (dataDir s) reply blockchainNetworksCacheFileName)
    as [[resp|e] fs1]; [|reflexivity].
  destruct (json_BlockchainNetworks json resp) as [nets|] eqn:Hdec; [|reflexivity].
  exists resp, nets. split; [exact Hdec|]. simpl. split; [|auto].
  intros k. rewrite foldl_insert_network_lookup, lookup_empty.
  destruct (last (filter (fun n => bn_NetworkNum n = k) nets)); reflexivity.
Qed.

(** ** The account model, further *)

(** X21. When the request for the own account fails, [getAccountModel]
    returns the error and replaces the account of the session, whatever it
    was, by the empty account with a relay limit of 1 and a limit of
    allowed nodes of 6. *)
Theorem getAccountModel_failure_overwrites json defaultElite s fs reply e :
  (httpWithCache (json_ErrorMessage json) fs (dataDir s) reply
     accountModelsFileName).1 = Err e ->
  let '(err, s', _) := getAccountModel json defaultElite s fs reply in
  err = Some (ErrAccountModel e)
  /\ accountModel s'
     = Some (set_MaxAllowedNodes
               (set_RelayLimit zeroAccount (set_Limit zeroQuota 1%N))
               (set_Limit zeroQuota 6%N))
  /\ networks s' = networks s.
Proof.
  intros Hfail. unfold getAccountModel, getAccountModelWithEndpoint.
  destruct (httpWithCache _ fs (dataDir s) reply accountModelsFileName)
    as [r fs1]. simpl in Hfail. subst r. simpl. auto.
Qed.

(** X23. [FetchCustomerAccountModel] goes around the cache: it never
    writes to the disk, and on a 503 it returns an error and the empty
    account even when a cache file is there. *)
Theorem FetchCustomerAccountModel_no_cache json defaultElite s fs reply body :
  (FetchCustomerAccountModel json defaultElite s fs reply).2 = fs
  /\ FetchCustomerAccountModel json defaultElite s fs
       (Response StatusServiceUnavailable body)
     = (zeroAccount, Some (ErrAccountModel ErrSDNUnavailable), fs).
Proof.
  split; [|reflexivity].
  unfold FetchCustomerAccountModel, getAccountModelWithEndpoint.
  destruct (http (json_ErrorMessage json) reply) as [resp|e]; [|reflexivity].
  destruct (json_Account json resp zeroAccount) as [a ok].
  destruct ok; [|reflexivity]. simpl.
  destruct (fillInAccountDefaults defaultElite a). reflexivity.
Qed.

(** ** The theorems of this part at concrete inputs *)

(** ["1.1.1.1"] under a limit of 1, over the map of scenario S5. *)
Lemma DirectRelayConnections_connects_overrides_witness :
  parsedCmdlineRelays offlineNet "1.1.1.1" 1 = Ok (oneRelay, 0)
  /\ length (do_sent (DirectRelayConnections offlineNet (Ok []) clockZero "1.1.1.1" 1
                        s5_ignored)) = size oneRelay.
Proof.
  assert (Hrun : parsedCmdlineRelays offlineNet "1.1.1.1" 1 = Ok (oneRelay, 0))
    by (vm_compute; reflexivity).
  split; [exact Hrun|].
  exact (proj1 (proj2 (DirectRelayConnections_connects_overrides offlineNet (Ok [])
                         clockZero "1.1.1.1" 1 s5_ignored oneRelay 0 Hrun))).
Defined.

(** The same specification, with a directory that is down and one that
    lists two relays. *)
Lemma DirectRelayConnections_no_auto_no_fetch_witness :
  parsedCmdlineRelays offlineNet "1.1.1.1" 1 = Ok (oneRelay, 0)
  /\ DirectRelayConnections offlineNet (Err ErrSDNUnavailable) clockZero "1.1.1.1" 1
       s5_ignored
     = DirectRelayConnections offlineNet (Ok s1_peers) clockZero "1.1.1.1" 1 s5_ignored.
Proof.
  assert (Hrun : parsedCmdlineRelays offlineNet "1.1.1.1" 1 = Ok (oneRelay, 0))
    by (vm_compute; reflexivity).
  split; [exact Hrun|].
  exact (proj1 (DirectRelayConnections_no_auto_no_fetch offlineNet clockZero "1.1.1.1" 1
                  s5_ignored oneRelay Hrun (Err ErrSDNUnavailable) (Ok s1_peers))).
Defined.

(** ["auto, 1.1.1.1, 2.2.2.2"] under a limit of 2 with the directory down. *)
Lemma DirectRelayConnections_directory_failure_witness :
  parsedCmdlineRelays offlineNet "auto, 1.1.1.1, 2.2.2.2" 2 = Ok (oneRelay, 1)
  /\ do_err (DirectRelayConnections offlineNet (Err ErrSDNUnavailable) clockZero
               "auto, 1.1.1.1, 2.2.2.2" 2 ∅)
     = Some (ErrRelayList ErrSDNUnavailable)
  /\ do_sent (DirectRelayConnections offlineNet (Err ErrSDNUnavailable) clockZero
                "auto, 1.1.1.1, 2.2.2.2" 2 ∅)
     = connectOf <$> map_to_list oneRelay.
Proof.
  assert (Hrun : parsedCmdlineRelays offlineNet "auto, 1.1.1.1, 2.2.2.2" 2
                 = Ok (oneRelay, 1)) by (vm_compute; reflexivity).
  split; [exact Hrun|].
  destruct (DirectRelayConnections_directory_failure offlineNet (Err ErrSDNUnavailable)
              clockZero "auto, 1.1.1.1, 2.2.2.2" 2 ∅ oneRelay 1 Hrun)
    as (Herr & _ & Hsent & _).
  - discriminate.
  - intros relays Hok. discriminate Hok.
  - split; [exact Herr | exact Hsent].
Defined.

(** Scenario S1 with one relay named: ["auto, 1.1.1.1"] under a limit of 2. *)
Lemma bootstrap_within_limit_witness :
  is_uint64 2
  /\ Z.of_nat (length (bootstrap offlineNet (Ok s1_peers) s1_latencies clockZero
                         "auto, 1.1.1.1" 2 ∅).2) <= 2.
Proof.
  assert (Hl : is_uint64 2) by (apply is_uint64_small; lia).
  split; [exact Hl|].
  exact (bootstrap_within_limit offlineNet (Ok s1_peers) s1_latencies clockZero
           "auto, 1.1.1.1" 2 ∅ Hl).
Defined.

(** A request that got no response, with a cache file on the disk. *)
Lemma httpWithCache_error_bypasses_cache_witness :
  httpWithCache (fun _ => Some "") (diskOf (<["dir/f" := "old"]> ∅)) "dir"
    (NoResponse (ErrOS "timeout")) "f"
  = (Err (ErrOS "timeout"), diskOf (<["dir/f" := "old"]> ∅)).
Proof.
  apply (httpWithCache_error_bypasses_cache (fun _ => Some "")
           (diskOf (<["dir/f" := "old"]> ∅)) "dir" (NoResponse (ErrOS "timeout")) "f"
           (ErrOS "timeout")).
  - reflexivity.
  - discriminate.
Defined.

(** A body of five bytes over a file of three, then a 503. *)
Lemma httpWithCache_round_trip_witness :
  let fs' :=
    (httpWithCache (fun _ => Some "") (diskOf (<["dir/f" := "old"]> ∅)) "dir"
       (Response 200 (Ok "fresh")) "f").2 in
  httpWithCache (fun _ => Some "") fs' "dir"
    (Response StatusServiceUnavailable (Ok "down")) "f"
  = (Ok "fresh", fs').
Proof.
  apply (httpWithCache_round_trip (fun _ => Some "") (diskOf (<["dir/f" := "old"]> ∅))
           "dir" "f" "fresh" (Ok "down")).
  - reflexivity.
  - vm_compute. lia.
Defined.

(** Network 5 with the decoder of the examples, which reads the [int] 0
    as terminal total difficulty: the sentinel is stored. *)
Lemma FetchBlockchainNetwork_loads_network_witness :
  exists stored,
    networks (FetchBlockchainNetwork fixedJson emptySession (diskOf ∅)
                (Response 200 (Ok "net"))).1.2 !! 5 = Some stored
    /\ stored = set_TerminalTotalDifficulty mainnet (any_bigInt MaxInt).
Proof.
  destruct (FetchBlockchainNetwork fixedJson emptySession (diskOf ∅)
              (Response 200 (Ok "net"))) as [[err s'] fs'] eqn:Hrun.
  assert (Herr : err = None).
  { revert Hrun. unfold FetchBlockchainNetwork. simpl. intros [= <- _ _]. reflexivity. }
  subst err.
  destruct (FetchBlockchainNetwork_loads_network fixedJson emptySession (diskOf ∅)
              (Response 200 (Ok "net")) s' fs' Hrun)
    as ((resp & decoded & stored & _ & Hdec & Hstored & Hsentinel & _) & _).
  injection Hdec as <-. exists stored. split; [exact Hstored|].
  apply Hsentinel; reflexivity.
Defined.

(** The directory answers 500 and the account of the session was loaded
    before. *)
Lemma getAccountModel_failure_overwrites_witness :
  (getAccountModel fixedJson eliteAccount
     {| networks := ∅; accountModel := Some eliteAccount; networkNum := 5;
        dataDir := "" |}
     (diskOf ∅) (Response 500 (Ok "oops"))).1.1
  = Some (ErrAccountModel (ErrStatus 500 "")).
Proof.
  pose proof (getAccountModel_failure_overwrites fixedJson eliteAccount
                {| networks := ∅; accountModel := Some eliteAccount; networkNum := 5;
                   dataDir := "" |}
                (diskOf ∅) (Response 500 (Ok "oops")) (ErrStatus 500 "") eq_refl) as H.
  destruct (getAccountModel fixedJson eliteAccount _ (diskOf ∅) (Response 500 (Ok "oops")))
    as [[err s'] fs'].
  exact (proj1 H).
Defined.

(** ** The cache files *)

Lemma length_dropBytes n : forall s,
  String.length (dropBytes n s) = (String.length s - n)%nat.
Proof.
  induction n as [|n IH]; intros s; simpl; [lia|].
  destruct s as [|c rest]; simpl; [reflexivity | apply IH].
Qed.

Lemma length_append_string (a b : string) :
  String.length (a ++ b) = (String.length a + String.length b)%nat.
Proof.
  induction a as [|c a IH]; [reflexivity|].
  change (S (String.length (a ++ b)) = S (String.length a + String.length b)).
  rewrite IH. reflexivity.
Qed.

Lemma append_eq_self_r (a b : string) : a ++ b = a <-> b = "".
Proof.
  split.
  - intros H. assert (Hlen : String.length (a ++ b) = String.length a) by (rewrite H; reflexivity).
    rewrite length_append_string in Hlen. destruct b; [reflexivity | simpl in Hlen; lia].
  - intros ->. apply append_empty_r.
Qed.

Lemma length_takeBytes n : forall s,
  String.length (takeBytes n s) = Nat.min n (String.length s).
Proof.
  induction n as [|n IH]; intros s; simpl; [reflexivity|].
  destruct s as [|c rest]; simpl; [reflexivity | rewrite IH; reflexivity].
Qed.

(** X24. [UpdateCacheFile] returns an error exactly when the update does
    not go through.  When it goes through, [LoadCacheFile] reads back the
    value written followed by what the old file had past the length of
    the value: the file is as long as the longer of the two, and it is the
    value written exactly when the old file, if any, was not longer.  When
    the open fails the disk is as it was.  When the write or the flush
    fails the file is there all the same, and holds the bytes of the
    value that were written followed by what the old file had past
    them. *)
Theorem UpdateCacheFile_LoadCacheFile fs dataDir fileName value :
  let old := default "" (fs_files fs !! path_Join dataDir fileName) in
  let '(err, fs') := UpdateCacheFile fs dataDir fileName value in
  (err = None <-> fs_canWrite fs (path_Join dataDir fileName) = true)
  /\ match fs_update fs (path_Join dataDir fileName) with
     | Updated =>
         exists loaded,
           LoadCacheFile fs' dataDir fileName = Ok loaded
           /\ loaded = value ++ dropBytes (String.length value) old
           /\ String.length loaded
              = Nat.max (String.length value) (String.length old)
           /\ (loaded = value <-> (String.length old <= String.length value)%nat)
     | OpenFails => fs' = fs
     | WriteFails written =>
         exists loaded,
           LoadCacheFile fs' dataDir fileName = Ok loaded
           /\ loaded
              = takeBytes written value
                ++ dropBytes (Nat.min written (String.length value)) old
           /\ String.length loaded
              = Nat.max (Nat.min written (String.length value)) (String.length old)
     end.
Proof.
  unfold UpdateCacheFile, LoadCacheFile, fs_canWrite.
  destruct (fs_update fs (path_Join dataDir fileName)) as [| |written].
  - split; [split; reflexivity|].
    cbn [fs_files]. rewrite lookup_insert_eq. unfold writeFromStart.
    eexists. split; [reflexivity|]. split; [reflexivity|]. split.
    + rewrite length_append_string, length_dropBytes. lia.
    + rewrite append_eq_self_r.
      pose proof (length_dropBytes (String.length value)
                    (default "" (fs_files fs !! path_Join dataDir fileName))) as Hlen.
      split.
      * intros H. rewrite H in Hlen. simpl in Hlen. lia.
      * intros Hle.
        destruct (dropBytes _ _); [reflexivity | simpl in Hlen; lia].
  - split; [split; discriminate | reflexivity].
  - split; [split; discriminate|].
    cbn [fs_files]. rewrite lookup_insert_eq. unfold writeFromStart.
    rewrite length_takeBytes.
    eexists. split; [reflexivity|]. split; [reflexivity|].
    rewrite length_append_string, length_dropBytes, length_takeBytes. lia.
Qed.

(** ** The authorization header *)

Lemma SplitN2_spec sep s :
  (Contains sep s = false /\ SplitN2 sep s = [s])
  \/ (exists before after,
        SplitN2 sep s = [before; after]
        /\ s = before ++ String sep after
        /\ Contains sep before = false).
Proof.
  induction s as [|c rest IH]; simpl; [left; auto|].
  destruct (Ascii.eqb c sep) eqn:Hc.
  - apply Ascii.eqb_eq in Hc as ->. right. exists "", rest. auto.
  - simpl. destruct IH as [[Hno ->]|(before & after & -> & -> & Hno)].
    + left. auto.
    + right. exists (String c before), after. simpl. rewrite Hc. auto.
Qed.

(** X25. [GetAccountIDSecretHashFromHeader] succeeds exactly when the
    header decodes to a text with a colon; the account ID is then the text
    before the first colon and the secret hash all of the text after it,
    colons included.  Otherwise both are empty and the error says which of
    the two steps failed. *)
Theorem GetAccountIDSecretHashFromHeader_spec base64_DecodeString authHeader :
  let '(accountID, secretHash, err) :=
    GetAccountIDSecretHashFromHeader base64_DecodeString authHeader in
  match err with
  | None =>
      base64_DecodeString authHeader = Some (accountID ++ String ":" secretHash)
      /\ Contains ":" accountID = false
  | Some e =>
      accountID = "" /\ secretHash = ""
      /\ match base64_DecodeString authHeader with
         | None => e = errAuthHeaderNotBase65 authHeader
         | Some payload =>
             e = errAuthHeaderWrongFormat authHeader /\ Contains ":" payload = false
         end
  end.
Proof.
  unfold GetAccountIDSecretHashFromHeader.
  destruct (base64_DecodeString authHeader) as [payload|]; [|auto].
  destruct (SplitN2_spec ":" payload) as [[Hno ->]|(before & after & -> & -> & Hno)];
    simpl; auto.
Qed.

(** ** Node types *)

(** X26. The two tables of node types are inverse to each other:
    [DeserializeNodeType] accepts exactly the names [String] gives to the
    types it knows, and returns the type of the name; ["UNKNOWN"] is not
    accepted. *)
Theorem DeserializeNodeType_String b n :
  DeserializeNodeType b = (n, None)
  <-> NodeType_String n = b /\ b <> "UNKNOWN".
Proof.
  unfold DeserializeNodeType, NodeType_String.
  split.
  - destruct (nodeNameTypes !! b) as [t|] eqn:Hb; [|discriminate].
    intros [= ->]. unfold nodeNameTypes in Hb.
    apply elem_of_list_to_map_2 in Hb.
    repeat (apply elem_of_cons in Hb as [[= -> ->]|Hb];
            [vm_compute; split; [reflexivity | discriminate]|]).
    inversion Hb.
  - intros [Hs Hne].
    destruct (nodeTypeNames !! n) as [s|] eqn:Hn; [|congruence]. subst s.
    unfold nodeTypeNames in Hn. apply elem_of_list_to_map_2 in Hn.
    repeat (apply elem_of_cons in Hn as [[= -> ->]|Hn]; [vm_compute; reflexivity|]).
    inversion Hn.
Qed.

(** ** The parser: where the relays come from *)

Lemma parseToken_auto net relay :
  parseToken net relay = Ok TAuto <-> Trim " " relay = "auto".
Proof.
  unfold parseToken. destruct (decide (Trim " " relay = "auto")) as [Ha|Ha].
  - split; auto.
  - split; [|contradiction].
    destruct (decide (Trim " " relay = "")); [discriminate|].
    destruct (decide (2 < length (Split ":" (Trim " " relay)))%nat); [discriminate|].
    destruct (decide (length (Split ":" (Trim " " relay)) = 2%nat)).
    + destruct (Atoi _); [|discriminate]. destruct (GetIP net _); discriminate.
    + destruct (GetIP net _); discriminate.
Qed.

Lemma parseLoop_sound net relayLimit relays : forall st st',
  parseLoop net relayLimit relays st = Ok st' ->
  (forall ip port,
     st'.1 !! ip = Some port ->
     st.1 !! ip = Some port
     \/ exists relay, relay ∈ relays /\ parseToken net relay = Ok (TRelay ip port))
  /\ st.2 <= st'.2
     <= st.2 + Z.of_nat (length (filter (fun relay => Trim " " relay = "auto") relays)).
Proof.
  induction relays as [|relay rest IH]; intros st st' Hrun; simpl in Hrun.
  - injection Hrun as <-. split; [auto | simpl; lia].
  - destruct (uint64 (relayCount st) =? relayLimit).
    { injection Hrun as <-. split; [auto | lia]. }
    destruct (parseToken net relay) as [t|e] eqn:Htok; [|discriminate].
    apply IH in Hrun as [Hmap Hauto]. rewrite filter_cons.
    destruct t as [|ip0 port0]; simpl in Hmap, Hauto.
    + apply parseToken_auto in Htok. rewrite decide_True by exact Htok.
      split; [|simpl; lia].
      intros ip port Hin. destruct (Hmap ip port Hin) as [?|(r & Hr & Hp)]; [auto|].
      right. exists r. split; [right; exact Hr | exact Hp].
    + assert (Hna : Trim " " relay <> "auto").
      { intros Ha. apply (parseToken_auto net) in Ha. congruence. }
      rewrite decide_False by exact Hna.
      split.
      * intros ip port Hin. destruct (Hmap ip port Hin) as [Hst|(r & Hr & Hp)].
        -- destruct (st.1 !! ip0) eqn:Hip0; simpl in Hst; [auto|].
           destruct (decide (ip = ip0)) as [->|Hne].
           ++ rewrite lookup_insert_eq in Hst. injection Hst as <-.
              right. exists relay. split; [left | exact Htok].
           ++ rewrite lookup_insert_ne in Hst by congruence. auto.
        -- right. exists r. split; [right; exact Hr | exact Hp].
      * destruct (st.1 !! ip0); simpl in Hauto; lia.
Qed.

(** X27. Every relay [parsedCmdlineRelays] returns comes from a token of
    the specification: some token was read as that IP with that port.
    The number of automatic relays is at most the number of [auto] tokens
    and is not negative. *)
Theorem parsedCmdlineRelays_sound net relayHosts relayLimit overrideRelays autoCount :
  parsedCmdlineRelays net relayHosts relayLimit = Ok (overrideRelays, autoCount) ->
  (forall ip port,
     overrideRelays !! ip = Some port ->
     exists relay,
       relay ∈ Split "," relayHosts /\ parseToken net relay = Ok (TRelay ip port))
  /\ 0 <= autoCount
     <= Z.of_nat (length (filter (fun relay => Trim " " relay = "auto")
                            (Split "," relayHosts))).
Proof.
  unfold parsedCmdlineRelays.
  destruct (decide (String.length relayHosts = 0%nat)); [discriminate|].
  intros Hrun. apply parseLoop_sound in Hrun as [Hmap Hauto]. simpl in Hmap, Hauto.
  split; [|lia].
  intros ip port Hin. destruct (Hmap ip port Hin) as [Hempty|Hrelay]; [|exact Hrelay].
  rewrite lookup_empty in Hempty. discriminate.
Qed.

(** ["auto, 1.1.1.1, 2.2.2.2"] under a limit of 2: the relay 1.1.1.1 with
    the default port comes from the second token. *)
Lemma parsedCmdlineRelays_sound_witness :
  parsedCmdlineRelays offlineNet "auto, 1.1.1.1, 2.2.2.2" 2 = Ok (oneRelay, 1)
  /\ 0 <= 1
     <= Z.of_nat (length (filter (fun relay => Trim " " relay = "auto")
                            (Split "," "auto, 1.1.1.1, 2.2.2.2"))).
Proof.
  assert (Hrun : parsedCmdlineRelays offlineNet "auto, 1.1.1.1, 2.2.2.2" 2
                 = Ok (oneRelay, 1)) by (vm_compute; reflexivity).
  split; [exact Hrun|].
  exact (proj2 (parsedCmdlineRelays_sound offlineNet "auto, 1.1.1.1, 2.2.2.2" 2
                  oneRelay 1 Hrun)).
Defined.

(** ** [getRelays] and its cache *)

(** X28. [getRelays] caches the body of a 200 before it decodes it: after
    such a call on a writable cache file that was not longer than the
    body, a call that meets a 503 gives the same result, be it the relays
    decoded or the error of a body that does not decode. *)
Theorem getRelays_caches_before_decoding json s fs body body' :
  fs_canWrite fs (path_Join (dataDir s) potentialRelaysFileName) = true ->
  (String.length
     (default "" (fs_files fs !! path_Join (dataDir s) potentialRelaysFileName))
   <= String.length body)%nat ->
  let first := getRelays json s fs (Response 200 (Ok body)) in
  let second := getRelays json s first.2 (Response StatusServiceUnavailable body') in
  first.1 = match json_Peers json body with
            | Some relays => Ok relays
            | None => Err (ErrDeserialize body)
            end
  /\ second = first.
Proof.
  intros Hw Hlen first second.
  pose proof (httpWithCache_round_trip (json_ErrorMessage json) fs (dataDir s)
                potentialRelaysFileName body body' Hw Hlen) as Hback.
  cbv zeta in Hback.
  assert (Hfirst : first
                   = (match json_Peers json body with
                      | Some relays => Ok relays
                      | None => Err (ErrDeserialize body)
                      end,
                      (httpWithCache (json_ErrorMessage json) fs (dataDir s)
                         (Response 200 (Ok body)) potentialRelaysFileName).2)).
  { unfold first, getRelays.
    destruct (httpWithCache (json_ErrorMessage json) fs (dataDir s)
                (Response 200 (Ok body)) potentialRelaysFileName) as [r fs1] eqn:Hrun.
    assert (Hr : r = Ok body).
    { revert Hrun. unfold httpWithCache. simpl.
      destruct (UpdateCacheFile fs (dataDir s) potentialRelaysFileName body).
      intros [= <- _]. reflexivity. }
    subst r. simpl. destruct (json_Peers json body); reflexivity. }
  split; [rewrite Hfirst; reflexivity|].
  unfold second. rewrite Hfirst. cbn [snd]. unfold getRelays at 1.
  rewrite Hback. destruct (json_Peers json body); reflexivity.
Qed.

(** A body that is no list of peers, over an empty disk. *)
Lemma getRelays_caches_before_decoding_witness :
  let json := {| json_ErrorMessage := fun _ => Some "";
                 json_BlockchainNetwork := fun _ _ => (mainnet, true);
                 json_BlockchainNetworks := fun _ => None;
                 json_Account := fun _ _ => (loadedAccount, true);
                 json_Peers := fun _ => None |} in
  let first := getRelays json emptySession (diskOf ∅) (Response 200 (Ok "oops")) in
  first.1 = Err (ErrDeserialize "oops")
  /\ getRelays json emptySession first.2 (Response StatusServiceUnavailable (Ok "down"))
     = first.
Proof.
  intros json.
  apply (getRelays_caches_before_decoding json emptySession (diskOf ∅) "oops" (Ok "down")).
  - reflexivity.
  - vm_compute. lia.
Defined.
